(** * Titanic prediction: the scoring service and the passenger query service

    A shallow embedding of [prediction-server.js] and [routers/passengers.js].

    - JSON request bodies are finite maps from property names to JavaScript
      values; numbers are IEEE-754 binary64 ([PrimFloat.float]), which is
      the ECMAScript Number type.
    - The implicit coercions of the relational operators and of [+] are
      written out ([ToPrimitive], [ToNumber], [ToString]); the conversions
      between strings and numbers that the engine supplies are fields of
      the [Runtime] class.
    - A [try { ... } catch] block is the [result] monad: [Throw] is the
      exception path that the handlers turn into a 500 response.
    - The heuristic score takes small integer values only and is kept in
      [Z]; the logistic transform [1 / (1 + Math.exp(-score * 0.3))] is
      taken over the real numbers.
    - The list route of the query service is embedded on the query it is
      sent ([get_passengers]), with the arithmetic of the two indices on
      doubles; [list_passengers] is that route on integer parameters. *)

From Stdlib Require Import ZArith Reals Lra Lia Floats Ascii String DecimalString.
From stdpp Require Import gmap strings list fin_maps.

Set Warnings "-inexact-float,-register-all".

(** ** JavaScript values and coercions *)

Module JS.

Inductive value :=
| VUndefined
| VNull
| VBool (b : bool)
| VNum (n : float)
| VStr (s : string)
| VArr (a : list value)
| VObj (o : list (string * value)).

(** The only exception the modelled code can raise. *)
Inductive exn := TypeError.

Inductive result (A : Type) :=
| Ok (a : A)
| Throw (e : exn).
Arguments Ok {A} a.
Arguments Throw {A} e.

#[export] Instance result_ret : MRet result := λ A a, Ok a.
#[export] Instance result_bind : MBind result := λ A B f m,
  match m with
  | Ok a => f a
  | Throw e => Throw e
  end.

(** What the engine supplies: the string/number conversions of
    ECMAScript (StringToNumber, Number::toString), [parseInt] with its
    radix left out ([None] is NaN) and [String.prototype.toLowerCase]. *)
Class Runtime := {
  StringToNumber : string → float;
  NumberToString : float → string;
  parseInt : string → option Z;
  toLowerCase : string → string;
}.

(** [o.k] on an object from [JSON.parse]: an absent key reads [undefined]. *)
Definition get (o : gmap string value) (k : string) : value :=
  default VUndefined (o !! k).

(** Own property test on a nested object literal. *)
Definition has_own (k : string) (o : list (string * value)) : bool :=
  bool_decide (k ∈ o.*1).

Section Coercions.
Context `{Runtime}.

(** ToString.  An array goes through [Array.prototype.join]; a plain
    object answers ["[object Object]"] unless an own (hence not callable)
    [toString] property hides [Object.prototype.toString], in which case
    OrdinaryToPrimitive finds no usable method and throws. *)
Fixpoint ToString (v : value) : result string :=
  match v with
  | VUndefined => Ok "undefined"
  | VNull => Ok "null"
  | VBool b => Ok (if b then "true" else "false")
  | VNum n => Ok (NumberToString n)
  | VStr s => Ok s
  | VArr a =>
      (fix join (l : list value) : result string :=
         match l with
         | [] => Ok ""
         | x :: r =>
             match (match x with
                    | VUndefined | VNull => Ok ""
                    | _ => ToString x
                    end) with
             | Throw e => Throw e
             | Ok sx =>
                 match r with
                 | [] => Ok sx
                 | _ => match join r with
                        | Throw e => Throw e
                        | Ok sr => Ok (sx +:+ "," +:+ sr)
                        end
                 end
             end
         end) a
  | VObj o =>
      if has_own "toString" o then Throw TypeError else Ok "[object Object]"
  end.

Definition ToPrimitive (v : value) : result value :=
  match v with
  | VArr _ | VObj _ => s ← ToString v; Ok (VStr s)
  | _ => Ok v
  end.

Definition ToNumber (v : value) : result float :=
  match v with
  | VUndefined => Ok nan
  | VNull => Ok 0%float
  | VBool b => Ok (if b then 1 else 0)%float
  | VNum n => Ok n
  | VStr s => Ok (StringToNumber s)
  | VArr _ | VObj _ => s ← ToString v; Ok (StringToNumber s)
  end.

(** [x <= k] and [x > k] against a number literal [k]: the left operand is
    converted to a number, and a NaN makes either comparison false. *)
Definition le_num (x : value) (k : float) : result bool :=
  n ← ToNumber x; Ok (n <=? k)%float.

Definition gt_num (x : value) (k : float) : result bool :=
  n ← ToNumber x; Ok (k <? n)%float.

(** [a + b]: concatenation as soon as one primitive is a string. *)
Definition add (a b : value) : result value :=
  pa ← ToPrimitive a;
  pb ← ToPrimitive b;
  match pa, pb with
  | VStr _, _ | _, VStr _ =>
      sa ← ToString pa; sb ← ToString pb; Ok (VStr (sa +:+ sb))
  | _, _ =>
      na ← ToNumber pa; nb ← ToNumber pb; Ok (VNum (na + nb)%float)
  end.

End Coercions.

(** [x === 'lit'] and [x === k]: no coercion, and IEEE equality on numbers. *)
Definition strict_eq_str (x : value) (lit : string) : bool :=
  match x with
  | VStr s => bool_decide (s = lit)
  | _ => false
  end.

Definition strict_eq_num (x : value) (k : float) : bool :=
  match x with
  | VNum n => (n =? k)%float
  | _ => false
  end.

(** [x === undefined || x === null] *)
Definition is_nullish (x : value) : bool :=
  match x with
  | VUndefined | VNull => true
  | _ => false
  end.

End JS.

Import JS.

(** ** A runtime for ASCII strings

    The engine functions on ASCII strings, to run the handlers on concrete
    requests: [parseInt] and lower-casing follow ECMAScript on every ASCII
    string; the two number conversions are given on plain decimal integers
    (digits only, below 10^21) and answer NaN elsewhere. *)

Module AsciiRuntime.

Definition is_white_space (c : ascii) : bool :=
  bool_decide (c ∈ ["009"; "010"; "011"; "012"; "013"; " "]%char).

Fixpoint trim_start (s : string) : string :=
  match s with
  | String c rest => if is_white_space c then trim_start rest else s
  | EmptyString => s
  end.

Definition digit (radix : Z) (c : ascii) : option Z :=
  let n := Z.of_N (N_of_ascii c) in
  let d :=
    if (48 <=? n)%Z && (n <=? 57)%Z then (n - 48)%Z
    else if (97 <=? n)%Z && (n <=? 122)%Z then (n - 87)%Z
    else if (65 <=? n)%Z && (n <=? 90)%Z then (n - 55)%Z
    else radix in
  if (d <? radix)%Z then Some d else None.

(** The longest prefix of radix-[radix] digits, read as an integer;
    [acc] is [None] until a first digit is seen. *)
Fixpoint digits (radix : Z) (s : string) (acc : option Z) : option Z :=
  match s with
  | EmptyString => acc
  | String c rest =>
      match digit radix c with
      | Some d => digits radix rest (Some (default 0 acc * radix + d)%Z)
      | None => acc
      end
  end.

Definition parseInt (string : string) : option Z :=
  let trimmed := trim_start string in
  let '(sign, unsigned) :=
    match trimmed with
    | String "-" rest => ((-1)%Z, rest)
    | String "+" rest => (1%Z, rest)
    | _ => (1%Z, trimmed)
    end in
  let '(radix, numeral) :=
    match unsigned with
    | String "0" (String "x" rest) | String "0" (String "X" rest) =>
        (16%Z, rest)
    | _ => (10%Z, unsigned)
    end in
  mathInt ← digits radix numeral None; Some (sign * mathInt)%Z.

Definition lower (c : ascii) : ascii :=
  let n := N_of_ascii c in
  if (65 <=? n)%N && (n <=? 90)%N then ascii_of_N (n + 32) else c.

Fixpoint toLowerCase (s : string) : string :=
  match s with
  | EmptyString => EmptyString
  | String c rest => String (lower c) (toLowerCase rest)
  end.

Fixpoint all_digits (s : string) : bool :=
  match s with
  | EmptyString => true
  | String c rest => bool_decide (is_Some (digit 10 c)) && all_digits rest
  end.

Definition of_Z (z : Z) : float :=
  SF2Prim (binary_normalize prec emax z 0 false).

Definition StringToNumber (s : string) : float :=
  match s with
  | EmptyString => 0%float
  | _ => if all_digits s then of_Z (default 0%Z (digits 10 s None)) else nan
  end.

Definition NumberToString (n : float) : string :=
  match Prim2SF n with
  | S754_zero _ => "0"
  | S754_finite false m e =>
      let z := (if (0 <=? e)%Z then Z.pos m * 2 ^ e
                else if (Z.pos m mod 2 ^ (- e) =? 0)%Z
                     then Z.pos m / 2 ^ (- e) else -1)%Z in
      if (0 <=? z)%Z && (z <? 10 ^ 21)%Z
      then NilZero.string_of_uint (N.to_uint (Z.to_N z)) else "NaN"
  | _ => "NaN"
  end.

#[export] Instance runtime : Runtime := {|
  JS.StringToNumber := StringToNumber;
  JS.NumberToString := NumberToString;
  JS.parseInt := parseInt;
  JS.toLowerCase := toLowerCase;
|}.

End AsciiRuntime.

(** ** Decimal literals

    [StringToNumber] on the strings of the StrDecimalLiteral grammar:
    white space around an optional sign, digits with an optional fraction
    and an optional exponent, rounded to the nearest double.  The empty
    string is 0; every other string ([Infinity] and the hexadecimal, octal
    and binary literals among them) answers NaN here.  The other engine
    functions are those of [AsciiRuntime]. *)

Module DecimalRuntime.
Import AsciiRuntime.

Fixpoint trim_end (s : string) : string :=
  match s with
  | EmptyString => EmptyString
  | String c rest =>
      match trim_end rest with
      | EmptyString =>
          if is_white_space c then EmptyString else String c EmptyString
      | trimmed => String c trimmed
      end
  end.

Definition read_sign (s : string) : bool * string :=
  match s with
  | String "-" rest => (true, rest)
  | String "+" rest => (false, rest)
  | _ => (false, s)
  end.

(** The longest prefix of decimal digits: its value on top of [acc], the
    number of digits read on top of [count], and the rest of the string. *)
Fixpoint read_digits (s : string) (acc count : Z) : Z * Z * string :=
  match s with
  | EmptyString => (acc, count, s)
  | String c rest =>
      match digit 10 c with
      | Some d => read_digits rest (acc * 10 + d)%Z (count + 1)%Z
      | None => (acc, count, s)
      end
  end.

(** The double nearest to [n * 10^e], with the sign [negative]. *)
Definition decimal (negative : bool) (n e : Z) : float :=
  match n with
  | Z.pos m =>
      if (0 <=? e)%Z
      then SF2Prim (binary_normalize prec emax
                      (cond_Zopp negative (n * 10 ^ e)) 0 false)
      else SF2Prim (SFdiv prec emax
                      (S754_finite negative m 0)
                      (S754_finite false (Z.to_pos (10 ^ (- e))) 0))
  | _ => SF2Prim (S754_zero negative)
  end.

Definition StringToNumber (s : string) : float :=
  match trim_end (trim_start s) with
  | EmptyString => 0%float
  | trimmed =>
      let '(negative, unsigned) := read_sign trimmed in
      let '(whole, whole_digits, rest) := read_digits unsigned 0 0 in
      let '(mantissa, fraction_digits, rest) :=
        match rest with
        | String "." fraction => read_digits fraction whole 0
        | _ => (whole, 0%Z, rest)
        end in
      let '(exponent, exponent_read, rest) :=
        match rest with
        | String "e" power | String "E" power =>
            let '(minus, power) := read_sign power in
            let '(e, count, rest) := read_digits power 0 0 in
            (cond_Zopp minus e, (0 <? count)%Z, rest)
        | _ => (0%Z, true, rest)
        end in
      if (0 <? whole_digits + fraction_digits)%Z && exponent_read
         && bool_decide (rest = EmptyString)
      then decimal negative mantissa (exponent - fraction_digits)
      else nan
  end.

#[export] Instance runtime : Runtime := {|
  JS.StringToNumber := StringToNumber;
  JS.NumberToString := AsciiRuntime.NumberToString;
  JS.parseInt := AsciiRuntime.parseInt;
  JS.toLowerCase := AsciiRuntime.toLowerCase;
|}.

End DecimalRuntime.

(** ** The survival scoring service ([prediction-server.js]) *)

Module Prediction.

Record features := {
  gender_impact : string;
  class_impact : string;
  age_group : string;
  family_impact : string;
}.

Record prediction := {
  survived : bool;
  probability : R;
  score : Z;
  features_of : features;
}.

(** [1 / (1 + Math.exp(-score * 0.3))] *)
Definition logistic (score : Z) : R :=
  (1 / (1 + exp (- IZR score * 0.3)))%R.

(** Squaring of a fixed-point number [a / scale], rounded down; iterated,
    it bounds powers of [exp] from below. *)
Definition square_down (scale a : Z) : Z := (a * a / scale)%Z.

(** [probability > 0.5] *)
Definition above_threshold (probability : R) : bool :=
  if Rlt_dec 0.5 probability then true else false.

(** What a handler sends: the status code and the JSON document. *)
Inductive payload :=
| Prediction_json (survived : bool) (probability : R) (score : Z)
    (features : features) (message : string)
| Error_json (error : string).

Record response := {
  status : Z;
  json : payload;
}.

Section Service.
Context `{Runtime}.

Definition predictSurvival (passengerData : gmap string value)
  : result prediction :=
  let score := 0%Z in
  (* Género *)
  let score :=
    if strict_eq_str (get passengerData "sex") "female"
    then (score + 3)%Z else score in
  let score :=
    if strict_eq_str (get passengerData "sex") "male"
    then (score - 1)%Z else score in
  (* Clase *)
  let score :=
    if strict_eq_num (get passengerData "pclass") 1
    then (score + 2)%Z else score in
  let score :=
    if strict_eq_num (get passengerData "pclass") 2
    then (score + 1)%Z else score in
  let score :=
    if strict_eq_num (get passengerData "pclass") 3
    then (score - 1)%Z else score in
  (* Edad *)
  score ←
    (c ← le_num (get passengerData "age") 12;
     if c : bool then Ok (score + 2)%Z else
     c ← le_num (get passengerData "age") 25;
     if c : bool then Ok (score + 1)%Z else
     c ← gt_num (get passengerData "age") 60;
     if c : bool then Ok (score - 1)%Z else Ok score);
  (* Familiares a bordo *)
  familySize ← add (get passengerData "sibsp") (get passengerData "parch");
  let score :=
    if strict_eq_num familySize 1 || strict_eq_num familySize 2
    then (score + 1)%Z else score in
  c ← gt_num familySize 4;
  let score := if c : bool then (score - 1)%Z else score in
  (* Tarifa *)
  score ←
    (c ← gt_num (get passengerData "fare") 50;
     if c : bool then Ok (score + 2)%Z else
     c ← gt_num (get passengerData "fare") 20;
     if c : bool then Ok (score + 1)%Z else Ok score);
  (* Puerto de embarque *)
  let score :=
    if strict_eq_str (get passengerData "embarked") "C"
    then (score + 1)%Z else score in
  let probability := logistic score in
  let survived := above_threshold probability in
  let gender :=
    if strict_eq_str (get passengerData "sex") "female"
    then "Alto" else "Bajo" in
  let class :=
    if strict_eq_num (get passengerData "pclass") 1 then "Alto"
    else if strict_eq_num (get passengerData "pclass") 2 then "Medio"
    else "Bajo" in
  group ←
    (c ← le_num (get passengerData "age") 12;
     if c : bool then Ok "Niño" else
     c ← le_num (get passengerData "age") 25;
     if c : bool then Ok "Joven" else
     c ← gt_num (get passengerData "age") 60;
     if c : bool then Ok "Mayor" else Ok "Adulto");
  c ← gt_num familySize 0;
  let family := if c : bool then "Positivo" else "Neutral" in
  Ok {| survived := survived;
        probability := probability;
        score := score;
        features_of :=
          {| gender_impact := gender;
             class_impact := class;
             age_group := group;
             family_impact := family |} |}.

(** The request handler of [POST /titanic/predict]. *)

Definition requiredFields : list string :=
  ["pclass"; "sex"; "age"; "sibsp"; "parch"; "fare"; "embarked"].

(** The validation loop: the first field of [fields], in order, whose value
    is [undefined] or [null] ends the request. *)
Fixpoint missing_field (fields : list string) (passengerData : gmap string value)
  : option string :=
  match fields with
  | [] => None
  | field :: rest =>
      if is_nullish (get passengerData field) then Some field
      else missing_field rest passengerData
  end.

Definition predict_handler (body : gmap string value) : response :=
  match missing_field requiredFields body with
  | Some field =>
      {| status := 400;
         json := Error_json ("Campo requerido faltante: " +:+ field) |}
  | None =>
      match predictSurvival body with
      | Ok prediction =>
          {| status := 200;
             json := Prediction_json
                       (survived prediction) (probability prediction)
                       (score prediction) (features_of prediction)
                       (if survived prediction
                        then "Probable superviviente basado en patrones históricos"
                        else "Probable no superviviente basado en patrones históricos") |}
      | Throw _ =>
          (* the [catch] block; the engine's [error.message] is left out *)
          {| status := 500; json := Error_json "Error interno del servidor" |}
      end
  end.

End Service.

(** *** The scoring rules as the specification words them *)

(** A scoring input in the sense of the data model: numbers for class, age,
    sibsp, parch and fare, strings for sex and port. *)
Record scoring_input := {
  pclass : float;
  sex : string;
  age : float;
  sibsp : float;
  parch : float;
  fare : float;
  embarked : string;
}.

(** The request body holds the seven fields of [i] (and maybe more). *)
Definition carries (body : gmap string value) (i : scoring_input) : Prop :=
  body !! "pclass" = Some (VNum (pclass i)) ∧
  body !! "sex" = Some (VStr (sex i)) ∧
  body !! "age" = Some (VNum (age i)) ∧
  body !! "sibsp" = Some (VNum (sibsp i)) ∧
  body !! "parch" = Some (VNum (parch i)) ∧
  body !! "fare" = Some (VNum (fare i)) ∧
  body !! "embarked" = Some (VStr (embarked i)).

Definition to_body (i : scoring_input) : gmap string value :=
  <["pclass" := VNum (pclass i)]> (
  <["sex" := VStr (sex i)]> (
  <["age" := VNum (age i)]> (
  <["sibsp" := VNum (sibsp i)]> (
  <["parch" := VNum (parch i)]> (
  <["fare" := VNum (fare i)]> (
  <["embarked" := VStr (embarked i)]> ∅)))))).

(** female +3, male -1, anything else 0 *)
Definition sex_adjustment (sex : string) : Z :=
  if decide (sex = "female") then 3
  else if decide (sex = "male") then -1 else 0.

(** class 1 +2, class 2 +1, class 3 -1 *)
Definition class_adjustment (pclass : float) : Z :=
  if (pclass =? 1)%float then 2
  else if (pclass =? 2)%float then 1
  else if (pclass =? 3)%float then -1 else 0.

(** age <= 12 +2, else <= 25 +1, else > 60 -1, else 0 *)
Definition age_adjustment (age : float) : Z :=
  if (age <=? 12)%float then 2
  else if (age <=? 25)%float then 1
  else if (60 <? age)%float then -1 else 0.

(** family size 1 or 2 +1, family size > 4 -1, otherwise 0 *)
Definition family_adjustment (familySize : float) : Z :=
  if ((familySize =? 1) || (familySize =? 2))%float then 1
  else if (4 <? familySize)%float then -1 else 0.

(** fare > 50 +2, else > 20 +1, else 0 *)
Definition fare_adjustment (fare : float) : Z :=
  if (50 <? fare)%float then 2
  else if (20 <? fare)%float then 1 else 0.

(** port C +1, any other port 0 *)
Definition port_adjustment (embarked : string) : Z :=
  if decide (embarked = "C") then 1 else 0.

Definition score_by_rules (i : scoring_input) : Z :=
  (0 + sex_adjustment (sex i) + class_adjustment (pclass i)
   + age_adjustment (age i) + family_adjustment (sibsp i + parch i)
   + fare_adjustment (fare i) + port_adjustment (embarked i))%Z.

(** The explanation labels on a scoring input. *)
Definition features_by_rules (i : scoring_input) : features :=
  {| gender_impact := if decide (sex i = "female") then "Alto" else "Bajo";
     class_impact :=
       if (pclass i =? 1)%float then "Alto"
       else if (pclass i =? 2)%float then "Medio" else "Bajo";
     age_group :=
       if (age i <=? 12)%float then "Niño"
       else if (age i <=? 25)%float then "Joven"
       else if (60 <? age i)%float then "Mayor" else "Adulto";
     family_impact :=
       if (0 <? sibsp i + parch i)%float then "Positivo" else "Neutral" |}.

(** The profiles that reach the two ends of the score range. *)
Definition lowest_profile (i : scoring_input) : Prop :=
  sex i = "male" ∧ (pclass i =? 3)%float = true ∧ (60 <? age i)%float = true ∧
  (4 <? sibsp i + parch i)%float = true ∧ (fare i <=? 20)%float = true ∧
  embarked i ≠ "C".

Definition highest_profile (i : scoring_input) : Prop :=
  sex i = "female" ∧ (pclass i =? 1)%float = true ∧
  (age i <=? 12)%float = true ∧
  ((sibsp i + parch i =? 1) || (sibsp i + parch i =? 2))%float = true ∧
  (50 <? fare i)%float = true ∧ embarked i = "C".

(** *** Request validation as the specification words it *)

(** A required field is missing when it is absent or null. *)
Definition missing (body : gmap string value) (field : string) : Prop :=
  is_nullish (get body field) = true.

Definition present (body : gmap string value) (field : string) : Prop :=
  is_nullish (get body field) = false.

(** [field] is the first missing field in the check order. *)
Definition first_missing (body : gmap string value) (field : string) : Prop :=
  ∃ before after,
    requiredFields = before ++ field :: after ∧
    Forall (present body) before ∧ missing body field.

(** The value converts to a primitive without an exception; numbers,
    strings and booleans always do. *)
Definition converts `{Runtime} (v : value) : Prop :=
  ∃ p, ToPrimitive v = Ok p.

(** The fields that [predictSurvival] compares or adds, and so converts. *)
Definition convertedFields : list string := ["age"; "sibsp"; "parch"; "fare"].

(** The 200 response for a prediction. *)
Definition prediction_response (p : prediction) : response :=
  {| status := 200;
     json := Prediction_json (survived p) (probability p) (score p)
               (features_of p)
               (if survived p
                then "Probable superviviente basado en patrones históricos"
                else "Probable no superviviente basado en patrones históricos") |}.

(** *** Inputs used below *)

(** The first record of [trainingData], without its [survived] label. *)
Definition fixture : scoring_input :=
  {| pclass := 1; sex := "female"; age := 29; sibsp := 0; parch := 0;
     fare := 211.34; embarked := "S" |}.

(** The result of the fixture, as [predictSurvival] builds it. *)
Definition fixture_result : prediction :=
  {| survived := above_threshold (logistic 7);
     probability := logistic 7;
     score := 7;
     features_of :=
       {| gender_impact := "Alto"; class_impact := "Alto";
          age_group := "Adulto"; family_impact := "Neutral" |} |}.

Definition lowest_example : scoring_input :=
  {| pclass := 3; sex := "male"; age := 70; sibsp := 4; parch := 2;
     fare := 7.25; embarked := "S" |}.

Definition highest_example : scoring_input :=
  {| pclass := 1; sex := "female"; age := 2; sibsp := 1; parch := 1;
     fare := 151.55; embarked := "C" |}.

(** All seven fields present and not null, but [age] is an object whose own
    [toString] property is not callable:
    [{"pclass":1,"sex":"female","age":{"toString":null},"sibsp":0,
      "parch":0,"fare":211.34,"embarked":"S"}]. *)
Definition unconvertible_age_body : gmap string value :=
  <["age" := VObj [("toString", VNull)]]> (to_body fixture).

(** The same passenger with an extra property. *)
Definition fixture_with_name : gmap string value :=
  <["name" := VStr "Allen, Miss. Elisabeth Walton"]> (to_body fixture).

(** The request [{"pclass":1,"sex":"female","age":null}]. *)
Definition incomplete_body : gmap string value :=
  <["pclass" := VNum 1]> (<["sex" := VStr "female"]> (<["age" := VNull]> ∅)).

(** Two scoring inputs that differ in the fare only. *)
Definition cheap_ticket : scoring_input :=
  {| pclass := 3; sex := "male"; age := 22; sibsp := 1; parch := 0;
     fare := 7.25; embarked := "S" |}.

Definition dear_ticket : scoring_input :=
  {| pclass := 3; sex := "male"; age := 22; sibsp := 1; parch := 0;
     fare := 26.55; embarked := "S" |}.

End Prediction.

(** ** The passenger query service ([routers/passengers.js]) *)

Module Passengers.

(** A record of [passengersData.passengers].  Identifier, class and
    survival flag are integers of the data file; they stay far below 2^53
    and are kept in [Z].  [parseInt] answers [None] for NaN.  On such
    records the routes that take a path parameter do not throw, so their
    [catch] blocks (500) are never entered. *)
Record passenger := {
  PassengerId : Z;
  Survived : Z;
  Pclass : Z;
  Name : string;
  Sex : string;
  Age : option float;
}.

(** [String.prototype.includes] *)
Fixpoint includes (s searchString : string) : bool :=
  String.prefix searchString s ||
  match s with
  | EmptyString => false
  | String _ rest => includes rest searchString
  end.

(** [Array.prototype.slice(start, end)] on integer arguments: a negative
    index counts from the end, and both ends are clamped to the array. *)
Definition slice {A} (O : list A) (start end_ : Z) : list A :=
  let len := Z.of_nat (length O) in
  let k := if (start <? 0)%Z then Z.max (len + start) 0 else Z.min start len in
  let final := if (end_ <? 0)%Z then Z.max (len + end_) 0 else Z.min end_ len in
  let count := Z.max (final - k) 0 in
  take (Z.to_nat count) (drop (Z.to_nat k) O).

(** [O[i]] for an integer [i]: nothing outside [0 .. length). *)
Definition item {A} (O : list A) (i : Z) : option A :=
  if decide (0 ≤ i)%Z then O !! Z.to_nat i else None.

Inductive payload :=
| Page_json (total : nat) (page limit : Z) (data : list passenger)
| Passenger_json (p : passenger)
| Class_json (class : option Z) (count : nat) (data : list passenger)
| Survived_json (survived : string) (count : nat) (data : list passenger)
| Search_json (search : string) (count : nat) (data : list passenger)
| Stats_json (totalPassengers : nat)
    (byClass : nat * nat * nat) (byGender : nat * nat)
| Error_json (error : string).

Record response := {
  status : Z;
  json : payload;
}.

(** The [data] array of a response (empty when it carries none). *)
Definition data_of (r : response) : list passenger :=
  match json r with
  | Page_json _ _ _ data | Class_json _ _ data
  | Survived_json _ _ data | Search_json _ _ data => data
  | _ => []
  end.

Section Routes.
Context `{Runtime}.
Variable passengersData : list passenger.

(** [GET /] for a page and a limit that the engine reads as integers, the
    same integer by the Number conversion of [page - 1] and [page * limit]
    and by [parseInt]; [None] is an absent parameter.  The route on the
    query itself is [get_passengers] below, which is proved to answer as
    [list_passengers] does on such parameters. *)
Definition list_passengers (page limit : option Z) : response :=
  let page := default 1%Z page in
  let limit := default 20%Z limit in
  let startIndex := ((page - 1) * limit)%Z in
  let endIndex := (page * limit)%Z in
  let passengers := slice passengersData startIndex endIndex in
  {| status := 200;
     json := Page_json (length passengersData) page limit passengers |}.

(** [GET /:id] *)
Definition passenger_by_id (id : string) : response :=
  match list_find (λ p, Some (PassengerId p) = parseInt id) passengersData with
  | None => {| status := 404; json := Error_json "Pasajero no encontrado" |}
  | Some (_, passenger) =>
      {| status := 200; json := Passenger_json passenger |}
  end.

(** [GET /class/:class] *)
Definition passengers_by_class (class : string) : response :=
  let pclass := parseInt class in
  let passengers := filter (λ p, Some (Pclass p) = pclass) passengersData in
  {| status := 200; json := Class_json pclass (length passengers) passengers |}.

(** [GET /survived/:status] *)
Definition passengers_by_survival (status : string) : response :=
  let survived := parseInt status in
  let passengers := filter (λ p, Some (Survived p) = survived) passengersData in
  {| status := 200;
     json := Survived_json
               (if decide (survived = Some 1%Z)
                then "Sobrevivió" else "No sobrevivió")
               (length passengers) passengers |}.

(** [GET /search/:name] *)
Definition search_passengers (name : string) : response :=
  let searchTerm := toLowerCase name in
  let passengers :=
    filter (λ p, includes (toLowerCase (Name p)) searchTerm = true)
           passengersData in
  {| status := 200;
     json := Search_json searchTerm (length passengers) passengers |}.

(** [GET /stats/summary]; the [survivalRate] string, which the engine
    formats from a quotient of doubles, is left out. *)
Definition stats_summary : response :=
  let total := length passengersData in
  let byClass :=
    (length (filter (λ p, Pclass p = 1%Z) passengersData),
     length (filter (λ p, Pclass p = 2%Z) passengersData),
     length (filter (λ p, Pclass p = 3%Z) passengersData)) in
  let byGender :=
    (length (filter (λ p, Sex p = "male") passengersData),
     length (filter (λ p, Sex p = "female") passengersData)) in
  {| status := 200; json := Stats_json total byClass byGender |}.

End Routes.

(** Five records in the shape of the data file. *)
Definition sample : list passenger :=
  [ {| PassengerId := 1; Survived := 0; Pclass := 3;
       Name := "Braund, Mr. Owen Harris"; Sex := "male";
       Age := Some 22%float |};
    {| PassengerId := 2; Survived := 1; Pclass := 1;
       Name := "Cumings, Mrs. John Bradley (Florence Briggs Thayer)";
       Sex := "female"; Age := Some 38%float |};
    {| PassengerId := 3; Survived := 1; Pclass := 3;
       Name := "Heikkinen, Miss. Laina"; Sex := "female";
       Age := Some 26%float |};
    {| PassengerId := 4; Survived := 1; Pclass := 1;
       Name := "Futrelle, Mrs. Jacques Heath (Lily May Peel)";
       Sex := "female"; Age := Some 35%float |};
    {| PassengerId := 5; Survived := 0; Pclass := 3;
       Name := "Moran, Mr. James"; Sex := "male"; Age := None |} ].

(** *** The load at startup and the survival rate

    What the typed routes above leave out of [routers/passengers.js]: the
    [try]/[catch] around the load of the data file, and the
    [survivalRate] string of [GET /stats/summary]. *)

(** The outcomes of [JSON.parse(fs.readFileSync(dataPath, 'utf8'))]
    followed by the read of [passengersData.passengers.length] in the
    same [try] block: the read or the parse throws; the document has no
    [passengers] property, so that [.length] throws; or the document
    holds the array. *)
Inductive data_file :=
| Unreadable
| Without_passengers
| With_passengers (passengers : list passenger).

(** [passengersData.passengers] once the module is loaded: the [catch]
    block installs the empty list. *)
Definition loaded (file : data_file) : list passenger :=
  match file with
  | With_passengers passengers => passengers
  | Unreadable | Without_passengers => []
  end.

(** An array length as a Number. *)
Definition number_of_nat (n : nat) : float :=
  SF2Prim (binary_normalize prec emax (Z.of_nat n) 0 false).

Fixpoint zeros (k : nat) : string :=
  match k with
  | O => EmptyString
  | S k => String "0" (zeros k)
  end.

(** The digits of the integer [n] with a point before the last
    [fractionDigits] of them, padded with zeros to the left so that one
    digit at least stands before the point. *)
Definition fixed_point (fractionDigits : nat) (n : N) : string :=
  let m := NilZero.string_of_uint (N.to_uint n) in
  let m := if decide (String.length m ≤ fractionDigits)
           then zeros (fractionDigits + 1 - String.length m) +:+ m
           else m in
  let k := String.length m in
  match fractionDigits with
  | O => m
  | _ => String.substring 0 (k - fractionDigits) m +:+ "." +:+
         String.substring (k - fractionDigits) fractionDigits m
  end.

(** The integer [n] for which [n / 10^fractionDigits] is nearest to
    [m * 2^e], the larger one of two. *)
Definition nearest_scaled (fractionDigits : nat) (m : positive) (e : Z) : N :=
  let scaled := (Z.pos m * 10 ^ Z.of_nat fractionDigits)%Z in
  Z.to_N (if (0 <=? e)%Z then scaled * 2 ^ e
          else (2 * scaled + 2 ^ (- e)) / 2 ^ (1 - e))%Z.

(** [Number.prototype.toFixed]: the exact value of the double, rounded to
    [fractionDigits] decimals; from 10^21 on the engine's
    [Number::toString] takes over. *)
Definition toFixed `{Runtime} (x : float) (fractionDigits : nat) : string :=
  match Prim2SF x with
  | S754_nan => "NaN"
  | S754_infinity false => "Infinity"
  | S754_infinity true => "-Infinity"
  | S754_zero _ => fixed_point fractionDigits 0
  | S754_finite sign m e =>
      (if sign then "-" else "") +:+
      (if (0 <=? e)%Z && (10 ^ 21 <=? Z.pos m * 2 ^ e)%Z
       then NumberToString (abs x)
       else fixed_point fractionDigits (nearest_scaled fractionDigits m e))
  end.

(** [`${((survived / total) * 100).toFixed(2)}%`] of [GET /stats/summary] *)
Definition survivalRate `{Runtime} (passengersData : list passenger) : string :=
  let total := length passengersData in
  let survived := length (filter (λ p, Survived p = 1%Z) passengersData) in
  toFixed (number_of_nat survived / number_of_nat total * 100)%float 2 +:+ "%".

(** *** [GET /] on the query

    [req.query] maps a parameter name to a string (or, with the extended
    query parser, to an array or an object).  The handler computes the two
    indices with the Number conversions of [page - 1] and [page * limit],
    [slice] truncates them, and the answer echoes [parseInt(page)] and
    [parseInt(limit)]. *)

(** The result of ToIntegerOrInfinity. *)
Inductive integer_or_infinity :=
| Minus_infinity
| Integer (i : Z)
| Plus_infinity.

(** NaN and the zeros are 0, the infinities stay, and a finite number is
    truncated towards 0. *)
Definition ToIntegerOrInfinity (number : float) : integer_or_infinity :=
  match Prim2SF number with
  | S754_nan | S754_zero _ => Integer 0
  | S754_infinity s => if s then Minus_infinity else Plus_infinity
  | S754_finite s m e =>
      Integer (cond_Zopp s (if (0 <=? e)%Z then Z.pos m * 2 ^ e
                            else Z.pos m / 2 ^ (- e)))
  end.

(** An argument of [slice] as an index into an array of length [len]. *)
Definition relative_index (len : Z) (relative : integer_or_infinity) : Z :=
  match relative with
  | Minus_infinity => 0
  | Integer i => if (i <? 0)%Z then Z.max (len + i) 0 else Z.min i len
  | Plus_infinity => len
  end.

(** [Array.prototype.slice(start, end)] on Number arguments. *)
Definition slice_numbers {A} (O : list A) (start end_ : float) : list A :=
  let len := Z.of_nat (length O) in
  let k := relative_index len (ToIntegerOrInfinity start) in
  let final := relative_index len (ToIntegerOrInfinity end_) in
  let count := Z.max (final - k) 0 in
  take (Z.to_nat count) (drop (Z.to_nat k) O).

(** The body of the answer: the page, with [None] for a NaN (which JSON
    writes as [null]), or the error of the [catch] block. *)
Inductive listing :=
| Listing_json (total : nat) (page limit : option Z) (data : list passenger)
| Listing_error (error : string).

Record listing_response := {
  listing_status : Z;
  listing_json : listing;
}.

(** [const { name = default } = req.query]: the default stands in for a
    parameter that is absent (or [undefined]). *)
Definition query_parameter (query : gmap string value) (name : string)
    (default : float) : value :=
  match get query name with
  | VUndefined => VNum default
  | v => v
  end.

Section Listing.
Context `{Runtime}.
Variable passengersData : list passenger.

(** [GET /].  Each use of [page] and [limit] in an arithmetic expression
    converts it again, with the same outcome; one conversion of each is
    written. *)
Definition get_passengers (query : gmap string value) : listing_response :=
  let page := query_parameter query "page" 1 in
  let limit := query_parameter query "limit" 20 in
  match
    page_number ← ToNumber page;
    limit_number ← ToNumber limit;
    let startIndex := ((page_number - 1) * limit_number)%float in
    let endIndex := (page_number * limit_number)%float in
    let passengers := slice_numbers passengersData startIndex endIndex in
    page_string ← ToString page;
    limit_string ← ToString limit;
    Ok (Listing_json (length passengersData)
          (parseInt page_string) (parseInt limit_string) passengers)
  with
  | Ok body => {| listing_status := 200; listing_json := body |}
  | Throw _ =>
      {| listing_status := 500;
         listing_json := Listing_error "Error al obtener pasajeros" |}
  end.

End Listing.

(** *** Integers among the doubles *)

(** The double [x] is the integer [z]. *)
Definition is_integer (x : float) (z : Z) : Prop :=
  match Prim2SF x with
  | S754_zero _ => z = 0%Z
  | S754_finite s m e =>
      (cond_Zopp s (Z.pos m) * 2 ^ Z.max e 0 = z * 2 ^ Z.max (- e) 0)%Z
  | _ => False
  end.

(** The double [x] is an integer of [t] or more, or plus infinity. *)
Definition at_least (x : float) (t : Z) : Prop :=
  Prim2SF x = S754_infinity false ∨ ∃ z, is_integer x z ∧ (t ≤ z)%Z.

(** *** The list and filter routes as the specification words them *)

(** The engine reads the parameter [v] as the integer [z], by its Number
    conversion and by [parseInt] alike: so it does a plain decimal
    integer, and not ["1e1"], which is the number 10 and parses as 1. *)
Definition reads_as_integer `{Runtime} (v : value) (z : Z) : Prop :=
  (∃ x, ToNumber v = Ok x ∧ is_integer x z) ∧
  (∃ s, ToString v = Ok s ∧ parseInt s = Some z).

(** [kept] is [all] with the elements that do not match removed, the
    others left as and where they are. *)
Inductive removes_non_matching {A} (matching : A → Prop) :
    list A → list A → Prop :=
| removes_nil : removes_non_matching matching [] []
| removes_keep x all kept :
    matching x → removes_non_matching matching all kept →
    removes_non_matching matching (x :: all) (x :: kept)
| removes_drop x all kept :
    ¬ matching x → removes_non_matching matching all kept →
    removes_non_matching matching (x :: all) kept.

(** Queries used below. *)
Definition second_page_of_two : gmap string value :=
  {[ "page" := VStr "2"; "limit" := VStr "2" ]}.

Definition negative_limit : gmap string value :=
  {[ "limit" := VStr "-1" ]}.

Definition fractional_limit : gmap string value :=
  {[ "page" := VStr "2"; "limit" := VStr "2.5" ]}.

Definition exponent_page : gmap string value :=
  {[ "page" := VStr "1e1"; "limit" := VStr "2" ]}.

End Passengers.

(** * Proofs *)

(** ** Comparisons of doubles *)

Section FloatFacts.

Lemma SFcompare_Eq_finite x s m e :
  SFcompare x (S754_finite s m e) = Some Eq → x = S754_finite s m e.
Proof.
  destruct x as [sx| sx | |sx mx ex]; simpl;
    try destruct sx; try destruct s; try discriminate.
  all: destruct (Z.compare_spec ex e) as [->| |]; try discriminate.
  all: intros Hc; injection Hc as Hc.
  all: try (apply CompOpp_iff in Hc; simpl in Hc).
  all: apply (Pos.compare_eq mx m) in Hc; by subst.
Qed.

(** [x === k] for a finite non-zero literal [k] pins [x] down. *)
Lemma eqb_finite_eq (x k : float) s m e :
  Prim2SF k = S754_finite s m e → (x =? k)%float = true → x = k.
Proof.
  intros Hk Hx. rewrite FloatAxioms.eqb_spec, Hk in Hx. unfold SFeqb in Hx.
  apply Prim2SF_inj. rewrite Hk. apply SFcompare_Eq_finite.
  destruct (SFcompare _ _) as [[]|]; done.
Qed.

Lemma SFcompare_antisym x y :
  SFcompare y x = option_map CompOpp (SFcompare x y).
Proof.
  destruct x as [sx|sx| |sx mx ex], y as [sy|sy| |sy my ey]; simpl;
    try destruct sx; try destruct sy; try reflexivity.
  all: rewrite (Z.compare_antisym ex ey).
  all: pose proof (Pos.compare_cont_antisym mx my Eq) as Hm; simpl in Hm.
  all: rewrite <- Hm.
  all: destruct (ex ?= ey)%Z; simpl; try reflexivity.
  all: by rewrite ?CompOpp_involutive.
Qed.

(** [x <= y] excludes [x > y]. *)
Lemma leb_not_gt (x y : float) :
  (x <=? y)%float = true → (y <? x)%float = false.
Proof.
  rewrite FloatAxioms.leb_spec, FloatAxioms.ltb_spec.
  unfold SFleb, SFltb. rewrite (SFcompare_antisym (Prim2SF x) (Prim2SF y)).
  by destruct (SFcompare (Prim2SF x) (Prim2SF y)) as [[]|].
Qed.

Lemma SFcompare_Lt_trans x y z :
  SFcompare x y = Some Lt → SFcompare y z = Some Lt → SFcompare x z = Some Lt.
Proof.
  destruct x as [sx|sx| |sx mx ex], y as [sy|sy| |sy my ey],
    z as [sz|sz| |sz mz ez]; simpl;
    try destruct sx; try destruct sy; try destruct sz; try done.
  all: change (Pos.compare_cont Eq) with Pos.compare.
  all: destruct (Z.compare_spec ex ey) as [Exy|Exy|Exy],
         (Z.compare_spec ey ez) as [Eyz|Eyz|Eyz],
         (Z.compare_spec ex ez) as [Exz|Exz|Exz]; try done; try lia.
  all: intros Hxy Hyz; injection Hxy as Hxy; injection Hyz as Hyz; f_equal.
  all: rewrite ?CompOpp_iff in *; simpl in *.
  all: rewrite ?Pos.compare_lt_iff, ?Pos.compare_gt_iff in *; lia.
Qed.

(** [x <= a] and [a < b] exclude [x > b], for a finite non-zero [a]. *)
Lemma leb_ltb_not_gt (x a b : float) s m e :
  Prim2SF a = S754_finite s m e →
  (x <=? a)%float = true → (a <? b)%float = true → (b <? x)%float = false.
Proof.
  intros Ha Hxa Hab. destruct (b <? x)%float eqn:Hbx; [exfalso|done].
  rewrite FloatAxioms.leb_spec in Hxa.
  rewrite FloatAxioms.ltb_spec in Hab, Hbx.
  unfold SFleb, SFltb in *.
  destruct (SFcompare (Prim2SF b) (Prim2SF x)) as [[]|] eqn:Cbx; try done.
  destruct (SFcompare (Prim2SF a) (Prim2SF b)) as [[]|] eqn:Cab; try done.
  destruct (SFcompare (Prim2SF x) (Prim2SF a)) as [[]|] eqn:Cxa; try done.
  - rewrite Ha in Cxa. apply SFcompare_Eq_finite in Cxa.
    rewrite <- Ha in Cxa. rewrite Cxa in Cbx.
    rewrite (SFcompare_antisym (Prim2SF a) (Prim2SF b)), Cab in Cbx. done.
  - pose proof (SFcompare_Lt_trans _ _ _ Cbx Cxa) as Cba.
    rewrite (SFcompare_antisym (Prim2SF a) (Prim2SF b)), Cab in Cba. done.
Qed.

End FloatFacts.

Ltac float_const H :=
  eapply eqb_finite_eq in H; [ | vm_compute; reflexivity ].

(** ** The result monad *)

Lemma bind_Ok {A B} (a : A) (f : A → result B) : Ok a ≫= f = f a.
Proof. reflexivity. Qed.

Lemma bind_Ok_inv {A B} (m : result A) (f : A → result B) (b : B) :
  m ≫= f = Ok b → ∃ a, m = Ok a ∧ f a = Ok b.
Proof. destruct m as [a|e]; [by exists a|done]. Qed.

(** Name the next [let] of a run instead of substituting it. *)
Ltac step_let x' :=
  lazymatch goal with
  | |- (let x := ?v in @?b x) = ?c =>
      pose (x' := v); change (b x' = c); cbv beta
  end.

Ltac step_let_in H x' :=
  lazymatch type of H with
  | (let x := ?v in @?b x) = ?c =>
      pose (x' := v); change (b x' = c) in H; cbv beta in H
  end.

(** ** The scoring rules *)

Module PredictionProofs.
Import Prediction.

Section ScoringSteps.

(** Each block of [predictSurvival] adds one adjustment to the running
    score [z]. *)

Lemma sex_steps (s : string) (z : Z) :
  (let z1 := if bool_decide (s = "female") then z + 3 else z in
   if bool_decide (s = "male") then z1 - 1 else z1)%Z
  = (z + sex_adjustment s)%Z.
Proof.
  unfold sex_adjustment. cbv zeta.
  repeat case_bool_decide; repeat case_decide; subst; try done; lia.
Qed.

Lemma class_steps (c : float) (z : Z) :
  (let z1 := if (c =? 1)%float then z + 2 else z in
   let z2 := if (c =? 2)%float then z1 + 1 else z1 in
   if (c =? 3)%float then z2 - 1 else z2)%Z
  = (z + class_adjustment c)%Z.
Proof.
  unfold class_adjustment. cbv zeta.
  destruct (c =? 1)%float eqn:E1.
  { float_const E1. subst c. vm_compute. by destruct z. }
  destruct (c =? 2)%float eqn:E2.
  { float_const E2. subst c. vm_compute. by destruct z. }
  destruct (c =? 3)%float; lia.
Qed.

Lemma age_steps (a : float) (z : Z) :
  (if (a <=? 12)%float then Ok (z + 2)%Z
   else if (a <=? 25)%float then Ok (z + 1)%Z
   else if (60 <? a)%float then Ok (z - 1)%Z else Ok z)
  = Ok (z + age_adjustment a)%Z.
Proof.
  unfold age_adjustment.
  destruct (a <=? 12)%float, (a <=? 25)%float, (60 <? a)%float; f_equal; lia.
Qed.

(** The two family tests never fire together: a size equal to 1 or 2 is
    not above 4. *)
Lemma family_steps (f : float) (z : Z) :
  (let z1 := if ((f =? 1) || (f =? 2))%float then z + 1 else z in
   if (4 <? f)%float then z1 - 1 else z1)%Z
  = (z + family_adjustment f)%Z.
Proof.
  unfold family_adjustment. cbv zeta.
  destruct (f =? 1)%float eqn:E1.
  { float_const E1. subst f. vm_compute. by destruct z. }
  destruct (f =? 2)%float eqn:E2.
  { float_const E2. subst f. vm_compute. by destruct z. }
  simpl. destruct (4 <? f)%float; lia.
Qed.

Lemma fare_steps (f : float) (z : Z) :
  (if (50 <? f)%float then Ok (z + 2)%Z
   else if (20 <? f)%float then Ok (z + 1)%Z else Ok z)
  = Ok (z + fare_adjustment f)%Z.
Proof.
  unfold fare_adjustment.
  destruct (50 <? f)%float, (20 <? f)%float; f_equal; lia.
Qed.

Lemma port_steps (p : string) (z : Z) :
  (if bool_decide (p = "C") then z + 1 else z)%Z = (z + port_adjustment p)%Z.
Proof. unfold port_adjustment. case_bool_decide; case_decide; try done; lia. Qed.

Lemma group_steps (a : float) :
  (if (a <=? 12)%float then Ok "Niño"
   else if (a <=? 25)%float then Ok "Joven"
   else if (60 <? a)%float then Ok "Mayor" else Ok "Adulto")
  = Ok (if (a <=? 12)%float then "Niño"
        else if (a <=? 25)%float then "Joven"
        else if (60 <? a)%float then "Mayor" else "Adulto").
Proof. by destruct (a <=? 12)%float, (a <=? 25)%float, (60 <? a)%float. Qed.

Lemma sex_adjustment_range s : (-1 ≤ sex_adjustment s ≤ 3)%Z.
Proof. unfold sex_adjustment. repeat case_decide; lia. Qed.

Lemma class_adjustment_range c : (-1 ≤ class_adjustment c ≤ 2)%Z.
Proof.
  unfold class_adjustment.
  destruct (c =? 1)%float, (c =? 2)%float, (c =? 3)%float; lia.
Qed.

Lemma age_adjustment_range a : (-1 ≤ age_adjustment a ≤ 2)%Z.
Proof.
  unfold age_adjustment.
  destruct (a <=? 12)%float, (a <=? 25)%float, (60 <? a)%float; lia.
Qed.

Lemma family_adjustment_range f : (-1 ≤ family_adjustment f ≤ 1)%Z.
Proof.
  unfold family_adjustment.
  destruct ((f =? 1) || (f =? 2))%float, (4 <? f)%float; lia.
Qed.

Lemma fare_adjustment_range f : (0 ≤ fare_adjustment f ≤ 2)%Z.
Proof.
  unfold fare_adjustment. destruct (50 <? f)%float, (20 <? f)%float; lia.
Qed.

Lemma port_adjustment_range p : (0 ≤ port_adjustment p ≤ 1)%Z.
Proof. unfold port_adjustment. case_decide; lia. Qed.

Lemma score_by_rules_range i : (-4 ≤ score_by_rules i ≤ 11)%Z.
Proof.
  unfold score_by_rules.
  pose proof (sex_adjustment_range (sex i)).
  pose proof (class_adjustment_range (pclass i)).
  pose proof (age_adjustment_range (age i)).
  pose proof (family_adjustment_range (sibsp i + parch i)).
  pose proof (fare_adjustment_range (fare i)).
  pose proof (port_adjustment_range (embarked i)).
  lia.
Qed.

Lemma lowest_profile_score i : lowest_profile i → score_by_rules i = (-4)%Z.
Proof.
  intros (Hs & Hc & Ha & Hf & Hfare & Hp).
  pose proof (leb_not_gt _ _ Hfare) as Hfare20.
  assert ((50 <? fare i)%float = false) as Hfare50.
  { eapply leb_ltb_not_gt; [|exact Hfare|]; by vm_compute. }
  assert ((age i <=? 12)%float = false ∧ (age i <=? 25)%float = false)
    as [Ha12 Ha25].
  { split.
    - destruct (age i <=? 12)%float eqn:E; [|done].
      rewrite <- Ha. eapply leb_ltb_not_gt; [|exact E|]; by vm_compute.
    - destruct (age i <=? 25)%float eqn:E; [|done].
      rewrite <- Ha. eapply leb_ltb_not_gt; [|exact E|]; by vm_compute. }
  assert (family_adjustment (sibsp i + parch i) = (-1)%Z) as Hfam.
  { pose proof (family_steps (sibsp i + parch i) 0) as Hst.
    cbv zeta in Hst. rewrite Hf in Hst.
    destruct ((sibsp i + parch i =? 1) || (sibsp i + parch i =? 2))%float eqn:E.
    - unfold family_adjustment in *. rewrite E in *. lia.
    - unfold family_adjustment. by rewrite E, Hf. }
  float_const Hc.
  unfold score_by_rules. rewrite Hfam.
  unfold sex_adjustment, class_adjustment, age_adjustment,
    fare_adjustment, port_adjustment.
  rewrite Hs, Hc, Ha12, Ha25, Ha, Hfare20, Hfare50.
  destruct (decide (embarked i = "C")); [done|]. by vm_compute.
Qed.

Lemma highest_profile_score i : highest_profile i → score_by_rules i = 11%Z.
Proof.
  intros (Hs & Hc & Ha & Hf & Hfare & Hp).
  float_const Hc.
  unfold score_by_rules, sex_adjustment, class_adjustment, age_adjustment,
    family_adjustment, fare_adjustment, port_adjustment.
  rewrite Hs, Hc, Ha, Hf, Hfare, Hp. by vm_compute.
Qed.

End ScoringSteps.

(** ** The logistic transform *)

Section Logistic.

Lemma logistic_above_half (s : Z) : (0.5 < logistic s)%R ↔ (0 < s)%Z.
Proof.
  unfold logistic.
  pose proof (exp_pos (- IZR s * 0.3)) as Hpos.
  assert ((0.5 < 1 / (1 + exp (- IZR s * 0.3)))%R
          ↔ (exp (- IZR s * 0.3) < 1)%R) as ->.
  { replace 0.5%R with (1 / 2)%R by lra.
    unfold Rdiv. rewrite !Rmult_1_l. split; intros Hlt.
    - apply Rnot_le_lt. intros Hge. apply (Rlt_not_le _ _ Hlt).
      apply Rinv_le_contravar; lra.
    - apply Rinv_lt_contravar; [nra|lra]. }
  split; intros Hlt; rewrite <- exp_0 in *.
  - apply exp_lt_inv in Hlt. apply lt_IZR. lra.
  - apply exp_increasing. apply IZR_lt in Hlt. lra.
Qed.

Lemma logistic_0 : logistic 0 = 0.5%R.
Proof.
  unfold logistic. replace (- 0 * 0.3)%R with 0%R by lra.
  rewrite exp_0. lra.
Qed.

Lemma above_threshold_true p : above_threshold p = true ↔ (0.5 < p)%R.
Proof. unfold above_threshold. by destruct (Rlt_dec 0.5 p). Qed.

(** On doubles the argument [-score * 0.3] of [Math.exp] is the double
    nearest to -2.1 for the score 7, and -0 for the score 0. *)
Example exp_argument_on_doubles :
  (- 7 * 0.3)%float = (-2.1)%float ∧ (- 0 * 0.3)%float = (-0)%float.
Proof. by split. Qed.

(** Lower bounds on [exp] by repeated squaring of a fixed-point number:
    [1 + x <= exp x], and squaring doubles the exponent. *)

Lemma square_down_bound scale a x :
  (0 < scale)%Z → (0 ≤ a)%Z → (IZR a / IZR scale <= exp x)%R →
  (IZR (square_down scale a) / IZR scale <= exp (x + x))%R.
Proof.
  intros Hscale Ha Hle. rewrite exp_plus.
  assert (0 < IZR scale)%R as Hs by (apply IZR_lt; lia).
  assert (0 <= IZR a / IZR scale)%R as Hq.
  { apply Rmult_le_pos; [apply IZR_le; lia | left; by apply Rinv_0_lt_compat]. }
  apply Rle_trans with (IZR a / IZR scale * (IZR a / IZR scale))%R; [|nra].
  assert (IZR (square_down scale a) * IZR scale <= IZR a * IZR a)%R as Hfl.
  { rewrite <- !mult_IZR. apply IZR_le. unfold square_down.
    rewrite Z.mul_comm. apply Z.mul_div_le. lia. }
  unfold Rdiv.
  apply Rmult_le_reg_r with (IZR scale * IZR scale)%R; [nra|].
  field_simplify; [|lra|lra]. nra.
Qed.

Lemma iter_square_down_bound scale (k : nat) a x :
  (0 < scale)%Z → (0 ≤ a)%Z → (IZR a / IZR scale <= exp x)%R →
  (IZR (Nat.iter k (square_down scale) a) / IZR scale <= exp (2 ^ k * x))%R
  ∧ (0 ≤ Nat.iter k (square_down scale) a)%Z.
Proof.
  intros Hscale Ha Hle. induction k as [|k [IH1 IH2]]; simpl.
  - split; [|done]. by rewrite Rmult_1_l.
  - split; [|unfold square_down; apply Z.div_pos; nia].
    replace (2 * 2 ^ k * x)%R with (2 ^ k * x + 2 ^ k * x)%R by lra.
    by apply square_down_bound.
Qed.

Lemma exp_lower (N : Z) (k : nat) (x : R) :
  (0 ≤ N)%Z →
  (IZR N / IZR (10 ^ 15) <= 1 + x)%R →
  (IZR (Nat.iter k (square_down (10 ^ 15)) N) / IZR (10 ^ 15)
   <= exp (2 ^ k * x))%R.
Proof.
  intros HN Hle.
  apply iter_square_down_bound; [lia|done|].
  eapply Rle_trans; [exact Hle|apply exp_ineq1_le].
Qed.

Lemma exp_minus_2_1_lower : (0.122423466066091 <= exp (-2.1))%R.
Proof.
  pose proof (exp_lower 999743652343750 13 (-2.1 / 8192)) as Hb.
  replace (2 ^ 13 * (-2.1 / 8192))%R with (-2.1)%R in Hb by lra.
  eapply Rle_trans; [|apply Hb; [lia|]].
  - vm_compute Nat.iter. lra.
  - change (10 ^ 15)%Z with 1000000000000000%Z. lra.
Qed.

Lemma exp_2_1_lower : (8.163972536341425 <= exp 2.1)%R.
Proof.
  pose proof (exp_lower 1000256347656250 13 (2.1 / 8192)) as Hb.
  replace (2 ^ 13 * (2.1 / 8192))%R with 2.1%R in Hb by lra.
  eapply Rle_trans; [|apply Hb; [lia|]].
  - vm_compute Nat.iter. lra.
  - change (10 ^ 15)%Z with 1000000000000000%Z. lra.
Qed.

(** 1 / (1 + e^-2.1) is 0.8909 to four decimals. *)
Lemma logistic_7_bounds :
  logistic 7 = (1 / (1 + exp (-2.1)))%R ∧ (0.89085 < logistic 7 < 0.89095)%R.
Proof.
  unfold logistic. replace (- IZR 7 * 0.3)%R with (-2.1)%R by lra.
  split; [done|].
  pose proof exp_minus_2_1_lower as Hlo.
  pose proof exp_2_1_lower as Hhi.
  assert (exp (-2.1) * exp 2.1 = 1)%R as Hinv.
  { rewrite <- exp_plus. replace (-2.1 + 2.1)%R with 0%R by lra. apply exp_0. }
  set (E := exp (-2.1)) in *. set (G := exp 2.1) in *.
  assert (E <= 0.1225)%R as Hup by nra.
  assert (0 < 1 + E)%R as Hpos by lra.
  assert (1 / (1 + E) * (1 + E) = 1)%R as Hp by (field; lra).
  assert (0 < 1 / (1 + E))%R as Hq by (apply Rdiv_lt_0_compat; lra).
  set (p := (1 / (1 + E))%R) in *.
  assert (0 <= p * (0.1225 - E))%R as H1 by (apply Rmult_le_pos; lra).
  assert (0 <= p * (E - 0.122423466066091))%R as H2
    by (apply Rmult_le_pos; lra).
  clearbody p E G. split; lra.
Qed.

End Logistic.

(** ** [predictSurvival] *)

Section Scoring.
Context `{Runtime}.

Lemma carries_get body i :
  carries body i →
  get body "pclass" = VNum (pclass i) ∧ get body "sex" = VStr (sex i) ∧
  get body "age" = VNum (age i) ∧ get body "sibsp" = VNum (sibsp i) ∧
  get body "parch" = VNum (parch i) ∧ get body "fare" = VNum (fare i) ∧
  get body "embarked" = VStr (embarked i).
Proof. unfold carries, get. by intros (-> & -> & -> & -> & -> & -> & ->). Qed.

Lemma carries_to_body i : carries (to_body i) i.
Proof. unfold carries, to_body. by simplify_map_eq. Qed.

(** On a scoring input the run never throws, and its result is given by
    the rules. *)
Lemma predictSurvival_typed body i :
  carries body i →
  predictSurvival body =
    Ok {| survived := above_threshold (logistic (score_by_rules i));
          probability := logistic (score_by_rules i);
          score := score_by_rules i;
          features_of := features_by_rules i |}.
Proof.
  intros Hc. apply carries_get in Hc as (Hp & Hs & Ha & Hsi & Hpa & Hf & He).
  cbv delta [predictSurvival]; cbv beta.
  rewrite Hp, Hs, Ha, Hsi, Hpa, Hf, He.
  cbn beta iota delta [strict_eq_str strict_eq_num le_num gt_num ToNumber
                       add ToPrimitive mbind result_bind].
  step_let s0. step_let s1. step_let s2. step_let s3. step_let s4. step_let s5.
  assert (s5 = 0 + sex_adjustment (sex i) + class_adjustment (pclass i))%Z
    as E5.
  { rewrite <- class_steps, <- sex_steps. reflexivity. }
  clearbody s5. clear s0 s1 s2 s3 s4.
  rewrite age_steps, bind_Ok. cbv beta. step_let s6. step_let s7.
  assert (s7 = s5 + age_adjustment (age i)
               + family_adjustment (sibsp i + parch i))%Z as E7.
  { rewrite <- family_steps. reflexivity. }
  clearbody s7. clear s6.
  rewrite fare_steps, bind_Ok. cbv beta. step_let s8.
  assert (s8 = score_by_rules i) as E8.
  { unfold score_by_rules. subst s8. rewrite port_steps. lia. }
  clearbody s8. subst s8.
  rewrite group_steps, bind_Ok. cbv beta zeta.
  unfold features_by_rules. by case_bool_decide; case_decide.
Qed.

(** Whatever the body, a returned record holds the transform of its own
    score and the threshold test of that probability. *)
Lemma predictSurvival_shape body r :
  predictSurvival body = Ok r →
  probability r = logistic (score r) ∧
  survived r = above_threshold (probability r).
Proof.
  intros Hr. cbv delta [predictSurvival] in Hr. cbv beta in Hr.
  step_let_in Hr s0. step_let_in Hr s1. step_let_in Hr s2.
  step_let_in Hr s3. step_let_in Hr s4. step_let_in Hr s5. clearbody s5.
  apply bind_Ok_inv in Hr as (s6 & _ & Hr).
  apply bind_Ok_inv in Hr as (familySize & _ & Hr).
  step_let_in Hr s7. clearbody s7.
  apply bind_Ok_inv in Hr as (c & _ & Hr).
  step_let_in Hr s8. clearbody s8.
  apply bind_Ok_inv in Hr as (s9 & _ & Hr).
  step_let_in Hr s10. clearbody s10.
  apply bind_Ok_inv in Hr as (group & _ & Hr).
  apply bind_Ok_inv in Hr as (c' & _ & Hr).
  cbv zeta in Hr. by injection Hr as <-.
Qed.

(** The blocks of the run on an arbitrary value, and the range each
    leaves the running score in. *)

Lemma sex_block_range (v : value) (z : Z) :
  (let z1 := if strict_eq_str v "female" then z + 3 else z in
   let z2 := if strict_eq_str v "male" then z1 - 1 else z1 in
   z - 1 ≤ z2 ≤ z + 3)%Z.
Proof.
  destruct v as [| | | |s| |]; simpl; try lia.
  rewrite sex_steps. pose proof (sex_adjustment_range s). lia.
Qed.

Lemma class_block_range (v : value) (z : Z) :
  (let z1 := if strict_eq_num v 1 then z + 2 else z in
   let z2 := if strict_eq_num v 2 then z1 + 1 else z1 in
   let z3 := if strict_eq_num v 3 then z2 - 1 else z2 in
   z - 1 ≤ z3 ≤ z + 2)%Z.
Proof.
  destruct v as [| | |n| | |]; simpl; try lia.
  rewrite class_steps. pose proof (class_adjustment_range n). lia.
Qed.

Lemma age_block_range (v : value) (z a : Z) :
  (c ← le_num v 12;
   if c : bool then Ok (z + 2)%Z else
   c ← le_num v 25;
   if c : bool then Ok (z + 1)%Z else
   c ← gt_num v 60;
   if c : bool then Ok (z - 1)%Z else Ok z) = Ok a →
  (z - 1 ≤ a ≤ z + 2)%Z.
Proof.
  unfold le_num, gt_num. destruct (ToNumber v) as [n|e]; [|done].
  rewrite !bind_Ok. cbv beta. rewrite age_steps. intros [= <-].
  pose proof (age_adjustment_range n). lia.
Qed.

Lemma family_block_range (familySize : value) (c : bool) (z : Z) :
  gt_num familySize 4 = Ok c →
  (let z1 := if strict_eq_num familySize 1 || strict_eq_num familySize 2
             then z + 1 else z in
   let z2 := if c then z1 - 1 else z1 in
   z - 1 ≤ z2 ≤ z + 1)%Z.
Proof.
  destruct familySize as [| | |n| | |]; simpl;
    try (intros _; destruct c; lia).
  intros [= <-]. rewrite family_steps.
  pose proof (family_adjustment_range n). lia.
Qed.

Lemma fare_block_range (v : value) (z a : Z) :
  (c ← gt_num v 50;
   if c : bool then Ok (z + 2)%Z else
   c ← gt_num v 20;
   if c : bool then Ok (z + 1)%Z else Ok z) = Ok a →
  (z ≤ a ≤ z + 2)%Z.
Proof.
  unfold gt_num. destruct (ToNumber v) as [n|e]; [|done].
  rewrite !bind_Ok. cbv beta. rewrite fare_steps. intros [= <-].
  pose proof (fare_adjustment_range n). lia.
Qed.

(** Whatever the body, a returned score is between -4 and 11. *)
Lemma predictSurvival_score_range body r :
  predictSurvival body = Ok r → (-4 ≤ score r ≤ 11)%Z.
Proof.
  intros Hr. cbv delta [predictSurvival] in Hr. cbv beta in Hr.
  step_let_in Hr s0. step_let_in Hr s1. step_let_in Hr s2.
  step_let_in Hr s3. step_let_in Hr s4. step_let_in Hr s5.
  pose proof (sex_block_range (get body "sex") s0) as Hsex.
  pose proof (class_block_range (get body "pclass") s2) as Hclass.
  cbv zeta in Hsex, Hclass. fold s1 s2 in Hsex. fold s3 s4 s5 in Hclass.
  assert (s0 = 0%Z) as E0 by done.
  clearbody s5 s2 s0. clear s1 s3 s4.
  apply bind_Ok_inv in Hr as (s6 & Hage & Hr).
  apply age_block_range in Hage.
  apply bind_Ok_inv in Hr as (familySize & _ & Hr).
  step_let_in Hr s7.
  apply bind_Ok_inv in Hr as (c & Hc & Hr).
  step_let_in Hr s8.
  pose proof (family_block_range familySize c s6 Hc) as Hfam.
  cbv zeta in Hfam. fold s7 s8 in Hfam.
  clearbody s8. clear s7.
  apply bind_Ok_inv in Hr as (s9 & Hfare & Hr).
  apply fare_block_range in Hfare.
  step_let_in Hr s10.
  assert (s9 ≤ s10 ≤ s9 + 1)%Z as Hport
    by (subst s10; destruct (strict_eq_str _ _); lia).
  clearbody s10.
  apply bind_Ok_inv in Hr as (group & _ & Hr).
  apply bind_Ok_inv in Hr as (c' & _ & Hr).
  cbv zeta in Hr. injection Hr as <-. simpl. lia.
Qed.

(** C1: on every scoring input holding the seven fields, the score is 0
    plus the adjustments for sex (female +3, male -1), class (1 +2, 2 +1,
    3 -1), age (<=12 +2, else <=25 +1, else >60 -1), family size
    sibsp+parch (1 or 2 +1, >4 -1), fare (>50 +2, else >20 +1) and port
    (C +1), and nothing else. *)
Theorem score_is_sum_of_adjustments body i :
  carries body i →
  ∃ r, predictSurvival body = Ok r ∧
       score r =
         (0 + sex_adjustment (sex i) + class_adjustment (pclass i)
          + age_adjustment (age i) + family_adjustment (sibsp i + parch i)
          + fare_adjustment (fare i) + port_adjustment (embarked i))%Z.
Proof. intros Hc. eexists. split; [by apply predictSurvival_typed|done]. Qed.

(** C10: the score of every request that is answered lies between -4
    and 11, and every scoring input holding the seven fields is answered;
    -4 is the score of a male, class 3, age > 60, family size > 4,
    fare <= 20, port other than C; 11 that of a female, class 1, age <= 12,
    family size 1 or 2, fare > 50, port C. *)
Theorem score_within_bounds body :
  (∀ r, predictSurvival body = Ok r → (-4 ≤ score r ≤ 11)%Z) ∧
  (∀ i, carries body i →
        ∃ r, predictSurvival body = Ok r ∧
             (-4 ≤ score r ≤ 11)%Z ∧
             (lowest_profile i → score r = (-4)%Z) ∧
             (highest_profile i → score r = 11%Z)).
Proof.
  split; [apply predictSurvival_score_range|].
  intros i Hc. eexists. split; [by apply predictSurvival_typed|]. simpl.
  split; [apply score_by_rules_range|].
  split; [apply lowest_profile_score|apply highest_profile_score].
Qed.

(** C2: the fixture (class 1, female, 29, no relatives, fare 211.34, port
    S) scores 7, its probability is 1/(1+e^-2.1), 0.8909 to four
    decimals, and it is predicted to survive. *)
Theorem fixture_prediction :
  ∃ r, predictSurvival (to_body fixture) = Ok r ∧
       score r = 7%Z ∧
       probability r = (1 / (1 + exp (-2.1)))%R ∧
       (0.89085 < probability r < 0.89095)%R ∧
       survived r = true.
Proof.
  eexists. split; [apply predictSurvival_typed, carries_to_body|]. simpl.
  assert (score_by_rules fixture = 7%Z) as -> by by vm_compute.
  pose proof logistic_7_bounds as [Heq Hb].
  repeat split; try done; try apply Hb.
  apply above_threshold_true. lra.
Qed.

(** C9: a returned prediction says survived exactly when its score is
    positive: the transform 1/(1+e^(-0.3 score)) exceeds 0.5 exactly then,
    and a score of 0 gives probability 0.5 and survived = false. *)
Theorem survived_iff_positive_score body r :
  predictSurvival body = Ok r →
  (survived r = true ↔ (0 < score r)%Z) ∧
  ((0.5 < probability r)%R ↔ (0 < score r)%Z) ∧
  (score r = 0%Z → probability r = 0.5%R ∧ survived r = false).
Proof.
  intros Hr. apply predictSurvival_shape in Hr as [Hp Hs].
  rewrite Hs, above_threshold_true, Hp.
  split; [apply logistic_above_half|].
  split; [apply logistic_above_half|].
  intros ->. rewrite logistic_0. split; [done|].
  apply not_true_is_false. rewrite above_threshold_true. lra.
Qed.

(** C8: the prediction depends on the seven fields only: two bodies that
    agree on them run to the same outcome, so to the same score,
    probability and survived value. *)
Theorem same_fields_same_prediction (body1 body2 : gmap string value) :
  (∀ field, field ∈ requiredFields → body1 !! field = body2 !! field) →
  predictSurvival body1 = predictSurvival body2 ∧
  ∀ r1 r2, predictSurvival body1 = Ok r1 → predictSurvival body2 = Ok r2 →
           score r1 = score r2 ∧ probability r1 = probability r2 ∧
           survived r1 = survived r2.
Proof.
  intros Hsame.
  assert (∀ field, field ∈ requiredFields → get body1 field = get body2 field)
    as Hget.
  { intros field Hin. unfold get. by rewrite Hsame. }
  assert (predictSurvival body1 = predictSurvival body2) as Heq.
  { cbv delta [predictSurvival]. cbv beta.
    rewrite !(Hget "pclass"), !(Hget "sex"), !(Hget "age"), !(Hget "sibsp"),
      !(Hget "parch"), !(Hget "fare"), !(Hget "embarked")
      by (unfold requiredFields; set_solver).
    reflexivity. }
  split; [done|]. intros r1 r2 H1 H2. rewrite Heq, H2 in H1.
  by injection H1 as <-.
Qed.

End Scoring.

(** ** The request handler *)

Section Handler.
Context `{Runtime}.

Lemma ToPrimitive_primitive v p :
  ToPrimitive v = Ok p →
  match p with VArr _ | VObj _ => False | _ => True end.
Proof.
  destruct v; simpl; try (by intros [= <-]).
  all: intros Hp; apply bind_Ok_inv in Hp as (s & _ & [= <-]); done.
Qed.

Lemma ToNumber_converts v : converts v → ∃ n, ToNumber v = Ok n.
Proof.
  intros [p Hp]. destruct v; simpl in *; eauto.
  all: apply bind_Ok_inv in Hp as (s & -> & _); simpl; eauto.
Qed.

Lemma add_converts a b :
  converts a → converts b →
  ∃ familySize, add a b = Ok familySize ∧
                ∃ c4 c0, gt_num familySize 4 = Ok c4 ∧
                         gt_num familySize 0 = Ok c0.
Proof.
  intros [pa Ha] [pb Hb]. unfold add. rewrite Ha, Hb, !bind_Ok.
  pose proof (ToPrimitive_primitive _ _ Ha).
  pose proof (ToPrimitive_primitive _ _ Hb).
  destruct pa, pb; try done; simpl; eauto 6.
Qed.

(** The run returns as soon as the four converted fields convert. *)
Lemma predictSurvival_returns body :
  Forall (λ field, converts (get body field)) convertedFields →
  ∃ r, predictSurvival body = Ok r.
Proof.
  intros Hconv. unfold convertedFields in Hconv.
  rewrite !Forall_cons in Hconv. destruct Hconv as (Ha & Hs & Hp & Hf & _).
  apply ToNumber_converts in Ha as [a Ha]. apply ToNumber_converts in Hf as [f Hf].
  destruct (add_converts _ _ Hs Hp) as (familySize & Hadd & c4 & c0 & H4 & H0).
  cbv delta [predictSurvival]; cbv beta.
  unfold le_num, gt_num in *. rewrite Ha, Hf, Hadd, !bind_Ok.
  cbv beta zeta. rewrite age_steps, !bind_Ok, H4, !bind_Ok.
  rewrite fare_steps, !bind_Ok, group_steps, !bind_Ok, H0, !bind_Ok.
  eauto.
Qed.

Lemma missing_field_first fields body field :
  missing_field fields body = Some field ↔
  ∃ before after, fields = before ++ field :: after ∧
                  Forall (present body) before ∧ missing body field.
Proof.
  unfold present, missing. induction fields as [|f rest IH]; simpl.
  - split; [done|]. by intros ([|??] & ? & ? & _).
  - destruct (is_nullish (get body f)) eqn:Hf.
    + split.
      * intros [= <-]. by exists [], rest.
      * intros ([|g before] & after & Heq & Hpre & Hmiss).
        -- by injection Heq as <- _.
        -- injection Heq as <- _. apply Forall_cons in Hpre as [Hg _]. congruence.
    + rewrite IH. split.
      * intros (before & after & -> & Hpre & Hmiss).
        exists (f :: before), after. by rewrite Forall_cons.
      * intros ([|g before] & after & Heq & Hpre & Hmiss).
        -- injection Heq as <- _. congruence.
        -- injection Heq as <- ->. apply Forall_cons in Hpre as [_ Hpre]. eauto.
Qed.

Lemma missing_field_none fields body :
  missing_field fields body = None ↔ Forall (present body) fields.
Proof.
  unfold present. induction fields as [|f rest IH]; simpl.
  - split; [constructor|done].
  - rewrite Forall_cons, <- IH.
    destruct (is_nullish (get body f)); [|tauto].
    split; [done|]. by intros [? _].
Qed.

(** C3, as the handler has it: a body with a missing (absent or null)
    field is answered 400 with the first missing field in the order pclass,
    sex, age, sibsp, parch, fare, embarked; a body with all seven present
    is answered with the prediction when the run of [predictSurvival]
    returns, which it does whenever age, sibsp, parch and fare convert to
    primitives, and with the 500 of the catch block when it throws. *)
Theorem predict_handler_validation body :
  (∀ field, first_missing body field →
     predict_handler body =
       {| status := 400;
          json := Error_json ("Campo requerido faltante: " +:+ field) |}) ∧
  (Forall (present body) requiredFields →
     (∀ r, predictSurvival body = Ok r →
           predict_handler body = prediction_response r) ∧
     (∀ e, predictSurvival body = Throw e → status (predict_handler body) = 500%Z) ∧
     (Forall (λ field, converts (get body field)) convertedFields →
      ∃ r, predictSurvival body = Ok r ∧
           predict_handler body = prediction_response r)).
Proof.
  unfold predict_handler. split.
  - intros field Hfirst. apply missing_field_first in Hfirst. by rewrite Hfirst.
  - intros Hall. apply missing_field_none in Hall. rewrite Hall.
    split; [by intros r ->|]. split; [by intros e ->|].
    intros Hconv. destruct (predictSurvival_returns _ Hconv) as [r Hr].
    exists r. by rewrite Hr.
Qed.

End Handler.

(** The body with the object-valued age is answered by the catch block,
    whatever the engine's conversions. *)
Lemma unconvertible_age_throws (rt : Runtime) :
  @predictSurvival rt unconvertible_age_body = Throw TypeError.
Proof. by vm_compute. Qed.

(** The claim C3 without the proviso fails: every field of this body is
    present and not null, and the answer is the 500 of the catch block,
    not a prediction. *)
Lemma unconvertible_age_is_server_error :
  Forall (present unconvertible_age_body) requiredFields ∧
  @predict_handler AsciiRuntime.runtime unconvertible_age_body =
    {| status := 500; json := Error_json "Error interno del servidor" |}.
Proof.
  split; [|by vm_compute].
  unfold requiredFields. repeat constructor; by vm_compute.
Qed.

(** *** The theorems at concrete requests *)

Lemma score_is_sum_of_adjustments_fixture :
  carries (to_body fixture) fixture ∧
  ∃ r, @predictSurvival AsciiRuntime.runtime (to_body fixture) = Ok r ∧
       score r =
         (0 + sex_adjustment "female" + class_adjustment 1
          + age_adjustment 29 + family_adjustment (0 + 0)
          + fare_adjustment 211.34 + port_adjustment "S")%Z.
Proof.
  assert (carries (to_body fixture) fixture) as Hc
    by (unfold carries; vm_compute; done).
  split; [exact Hc|].
  exact (score_is_sum_of_adjustments (to_body fixture) fixture Hc).
Defined.

Lemma score_within_bounds_lowest :
  carries (to_body lowest_example) lowest_example ∧
  ∃ r, @predictSurvival AsciiRuntime.runtime (to_body lowest_example) = Ok r ∧
       (-4 ≤ score r ≤ 11)%Z ∧
       (lowest_profile lowest_example → score r = (-4)%Z) ∧
       (highest_profile lowest_example → score r = 11%Z).
Proof.
  assert (carries (to_body lowest_example) lowest_example) as Hc
    by (unfold carries; vm_compute; done).
  split; [exact Hc|].
  exact (proj2 (score_within_bounds (to_body lowest_example))
           lowest_example Hc).
Defined.

Lemma survived_iff_positive_score_fixture :
  @predictSurvival AsciiRuntime.runtime (to_body fixture) = Ok fixture_result ∧
  (survived fixture_result = true ↔ (0 < score fixture_result)%Z) ∧
  ((0.5 < probability fixture_result)%R ↔ (0 < score fixture_result)%Z) ∧
  (score fixture_result = 0%Z →
   probability fixture_result = 0.5%R ∧ survived fixture_result = false).
Proof.
  assert (@predictSurvival AsciiRuntime.runtime (to_body fixture)
          = Ok fixture_result) as Hr by (vm_compute; reflexivity).
  split; [exact Hr|].
  exact (survived_iff_positive_score (to_body fixture) fixture_result Hr).
Defined.

Lemma same_fields_same_prediction_fixture :
  (∀ field, field ∈ requiredFields →
            to_body fixture !! field = fixture_with_name !! field) ∧
  @predictSurvival AsciiRuntime.runtime (to_body fixture)
    = @predictSurvival AsciiRuntime.runtime fixture_with_name.
Proof.
  assert (∀ field, field ∈ requiredFields →
                   to_body fixture !! field = fixture_with_name !! field)
    as Hsame.
  { intros field Hin. unfold requiredFields in Hin.
    repeat (apply elem_of_cons in Hin as [->|Hin]; [by vm_compute|]).
    by apply elem_of_nil in Hin. }
  split; [exact Hsame|].
  exact (proj1 (same_fields_same_prediction
                  (to_body fixture) fixture_with_name Hsame)).
Defined.

Lemma predict_handler_validation_requests :
  first_missing incomplete_body "age" ∧
  @predict_handler AsciiRuntime.runtime incomplete_body =
    {| status := 400;
       json := Error_json "Campo requerido faltante: age" |} ∧
  Forall (present (to_body fixture)) requiredFields ∧
  ∃ r, @predictSurvival AsciiRuntime.runtime (to_body fixture) = Ok r ∧
       @predict_handler AsciiRuntime.runtime (to_body fixture)
         = prediction_response r.
Proof.
  assert (first_missing incomplete_body "age") as Hfirst.
  { exists ["pclass"; "sex"], ["sibsp"; "parch"; "fare"; "embarked"].
    split; [done|]. split; [|by vm_compute].
    repeat constructor; by vm_compute. }
  assert (Forall (present (to_body fixture)) requiredFields) as Hall.
  { unfold requiredFields. repeat constructor; by vm_compute. }
  assert (Forall (λ field, @converts AsciiRuntime.runtime
                             (get (to_body fixture) field)) convertedFields)
    as Hconv.
  { unfold convertedFields, converts.
    repeat constructor; eexists; by vm_compute. }
  split; [exact Hfirst|]. split.
  - exact (proj1 (predict_handler_validation incomplete_body) "age" Hfirst).
  - split; [exact Hall|].
    exact (proj2 (proj2 (proj2 (predict_handler_validation (to_body fixture))
                           Hall)) Hconv).
Defined.

Example lowest_example_score :
  @predictSurvival AsciiRuntime.runtime (to_body lowest_example)
  ≫= (λ r, Ok (score r)) = Ok (-4)%Z.
Proof. by vm_compute. Qed.

Example highest_example_score :
  @predictSurvival AsciiRuntime.runtime (to_body highest_example)
  ≫= (λ r, Ok (score r)) = Ok 11%Z.
Proof. by vm_compute. Qed.

(** Coercion at work: with the strings ["5"] and ["1"] for age and sibsp,
    the age counts as a child's, and the family size is the string
    ["10"], neither 1 nor 2 but above 4. *)
Example string_fields_are_coerced :
  @predictSurvival AsciiRuntime.runtime
    (<["age" := VStr "5"]> (<["sibsp" := VStr "1"]> (to_body fixture)))
  ≫= (λ r, Ok (score r)) = Ok 8%Z.
Proof. by vm_compute. Qed.

End PredictionProofs.

(** ** The passenger routes *)

Module PassengersProofs.
Import Passengers.

Section Slices.
Context {A : Type}.
Implicit Types O : list A.

(** From a non-negative start to a later end, [slice] is take-after-drop. *)
Lemma slice_forward O (start end_ : Z) :
  (0 ≤ start ≤ end_)%Z →
  slice O start end_ =
    take (Z.to_nat end_ - Z.to_nat start) (drop (Z.to_nat start) O).
Proof.
  intros Hse. unfold slice.
  destruct (Z.ltb_spec start 0), (Z.ltb_spec end_ 0); try lia.
  destruct (decide (Z.of_nat (length O) ≤ start)%Z) as [Hout|Hin].
  - rewrite !drop_ge by lia. by rewrite !take_nil.
  - rewrite (Z.min_l start) by lia.
    destruct (decide (Z.of_nat (length O) ≤ end_)%Z).
    + rewrite (Z.min_r end_) by lia. rewrite !take_ge; [done|..];
        rewrite length_drop; lia.
    + rewrite (Z.min_l end_) by lia. f_equal. lia.
Qed.

Lemma slice_to_0 O (start : Z) : slice O start 0 = [].
Proof.
  unfold slice. cbv zeta.
  replace (Z.to_nat (Z.max _ 0)) with 0%nat; [done|].
  change (0 <? 0)%Z with false. cbv iota.
  destruct (Z.ltb_spec start 0); lia.
Qed.

Lemma lookup_slice_forward O (start end_ : Z) (k : nat) :
  (0 ≤ start ≤ end_)%Z →
  slice O start end_ !! k =
    if decide (start + Z.of_nat k < end_)%Z then item O (start + Z.of_nat k)
    else None.
Proof.
  intros Hse. rewrite slice_forward by done. unfold item.
  case_decide as Hk.
  - rewrite lookup_take_lt by lia. rewrite lookup_drop.
    rewrite decide_True by lia. f_equal. lia.
  - by rewrite lookup_take_ge by lia.
Qed.

End Slices.

(** On integer arguments [slice_numbers] is [slice]. *)
Lemma relative_index_Integer (len i : Z) :
  relative_index len (Integer i)
  = if (i <? 0)%Z then Z.max (len + i) 0 else Z.min i len.
Proof. done. Qed.

(** [slice_numbers] always is a run of consecutive elements. *)
Lemma slice_numbers_run {A} (O : list A) (start end_ : float) :
  ∃ k n, slice_numbers O start end_ = take n (drop k O).
Proof. unfold slice_numbers. by eauto. Qed.

Section Strings.

Lemma prefix_app (t s : string) :
  String.prefix t s = true ↔ ∃ post, s = t +:+ post.
Proof.
  revert s. induction t as [|c t IH]; intros [|c' s]; simpl.
  - split; [intros _; by exists ""|done].
  - split; [intros _; by eexists|done].
  - split; [done|by intros [? ?]].
  - destruct (Ascii.ascii_dec c c') as [->|Hne].
    + rewrite IH. split; intros [post Hpost]; exists post.
      * by rewrite Hpost.
      * by injection Hpost.
    + split; [done|]. intros [post [= ? _]]. done.
Qed.

(** [includes] is the test for a contiguous substring. *)
Lemma includes_substring (s t : string) :
  includes s t = true ↔ ∃ pre post, s = pre +:+ t +:+ post.
Proof.
  induction s as [|c s IH].
  - cbn [includes]. rewrite orb_false_r, prefix_app. split.
    + intros [post ->]. by exists "", post.
    + intros ([|c' pre] & post & Heq); [by exists post|done].
  - cbn [includes]. rewrite orb_true_iff, prefix_app, IH. split.
    + intros [[post ->]|(pre & post & ->)].
      * by exists "", post.
      * by exists (String c pre), post.
    + intros ([|c' pre] & post & Heq).
      * left. by exists post.
      * right. injection Heq as -> ->. by exists pre, post.
Qed.

End Strings.

(** ** Integers as doubles

    Below 2^53 a difference and a product of integers are computed
    without rounding, and truncation gives the integer back; from 2^53 on
    they are rounded to an integer of 2^53 or more, or to infinity. *)

Section IntegerDoubles.
Local Open Scope Z_scope.

Lemma digits2_pos_size p : digits2_pos p = Pos.size p.
Proof. induction p; simpl; congruence. Qed.

Lemma digits2_pos_log2 p : Z.pos (digits2_pos p) = Z.log2 (Z.pos p) + 1.
Proof.
  rewrite digits2_pos_size. destruct p; simpl; lia.
Qed.

Lemma iter_pos_nat {A} (f : A → A) p x :
  SpecFloat.iter_pos f p x = Nat.iter (Pos.to_nat p) f x.
Proof.
  revert x. induction p as [p IH|p IH|]; intros x; cbn [SpecFloat.iter_pos].
  - rewrite !IH. rewrite Pos2Nat.inj_xI.
    replace (S (2 * Pos.to_nat p))%nat
      with (Pos.to_nat p + (Pos.to_nat p + 1))%nat by lia.
    rewrite !Nat.iter_add. simpl. done.
  - rewrite !IH. rewrite Pos2Nat.inj_xO.
    replace (2 * Pos.to_nat p)%nat with (Pos.to_nat p + Pos.to_nat p)%nat by lia.
    by rewrite Nat.iter_add.
  - done.
Qed.

Lemma shr_1_exact (k : nat) (P M : positive) :
  Z.pos P = Z.pos M * 2 ^ Z.of_nat k →
  Nat.iter k shr_1 {| shr_m := Z.pos P; shr_r := false; shr_s := false |}
  = {| shr_m := Z.pos M; shr_r := false; shr_s := false |}.
Proof.
  revert P. induction k as [|k IH]; intros P HP.
  - simpl in *. f_equal. lia.
  - rewrite Nat.iter_succ_r.
    rewrite Nat2Z.inj_succ, Z.pow_succ_r in HP by lia.
    destruct P as [P|P|]; try lia.
    simpl. apply IH. lia.
Qed.

Lemma binary_round_aux_exact s P e n :
  0 < n < 2 ^ 53 → e ≤ Z.log2 n - 52 → Z.pos P = n * 2 ^ (- e) →
  ∃ M, binary_round_aux prec emax s (Z.pos P) e loc_Exact
         = S754_finite s M (Z.log2 n - 52) ∧
       Z.pos M = n * 2 ^ (52 - Z.log2 n).
Proof.
  intros Hn He HP.
  assert (0 ≤ Z.log2 n < 53) as Hlog.
  { split; [apply Z.log2_nonneg|]. apply Z.log2_lt_pow2; lia. }
  assert (0 < n * 2 ^ (52 - Z.log2 n)) as HM
    by (apply Z.mul_pos_pos; [lia | apply Z.pow_pos_nonneg; lia]).
  destruct (n * 2 ^ (52 - Z.log2 n)) as [|M|] eqn:EM; try lia.
  exists M. split; [|done].
  set (e' := Z.log2 n - 52) in *.
  assert (Z.log2 (Z.pos P) = Z.log2 n - e) as HdP.
  { rewrite HP, Z.log2_mul_pow2 by lia. lia. }
  assert (Z.log2 (Z.pos M) = 52) as HdM.
  { rewrite <- EM, Z.log2_mul_pow2 by lia. lia. }
  assert (Z.pos P = Z.pos M * 2 ^ (e' - e)) as HPM.
  { rewrite HP, <- EM, <- Z.mul_assoc, <- Z.pow_add_r by lia.
    f_equal. f_equal. lia. }
  unfold binary_round_aux, shr_fexp, Zdigits2.
  rewrite digits2_pos_log2, HdP.
  replace (fexp prec emax (Z.log2 n - e + 1 + e) - e) with (e' - e)
    by (unfold fexp, emin, prec, emax; lia).
  assert (shr (shr_record_of_loc (Z.pos P) loc_Exact) e (e' - e)
          = ({| shr_m := Z.pos M; shr_r := false; shr_s := false |}, e'))
    as ->.
  { unfold shr, shr_record_of_loc.
    destruct (e' - e) as [|k|k] eqn:Ek; try lia.
    - rewrite Z.mul_1_r in HPM. f_equal; [|lia]. by rewrite HPM.
    - rewrite iter_pos_nat, (shr_1_exact _ P M).
      + f_equal. lia.
      + by rewrite positive_nat_Z. }
  cbn [shr_m loc_of_shr_record round_nearest_even].
  rewrite digits2_pos_log2, HdM.
  replace (fexp prec emax (52 + 1 + e') - e') with 0
    by (unfold fexp, emin, prec, emax; lia).
  cbn [shr shr_record_of_loc shr_m].
  destruct (Z.leb_spec e' (emax - prec)) as [_|Hgt]; [done|].
  unfold emax, prec in Hgt. lia.
Qed.

Lemma shl_align_value mx ex ez :
  ez ≤ ex → Z.pos (shl_align mx ex ez).1 = Z.pos mx * 2 ^ (ex - ez).
Proof.
  intros Hle. unfold shl_align.
  destruct (ez - ex) as [|d|d] eqn:Ed; try lia; simpl.
  - replace (ex - ez) with 0 by lia. lia.
  - replace (ex - ez) with (Z.pos d) by lia.
    clear Ed. induction d as [|d IH] using Pos.peano_ind.
    + simpl. lia.
    + rewrite Pos.iter_succ, Pos2Z.inj_succ, Z.pow_succ_r by lia. lia.
Qed.

Lemma shl_align_exponent mx ex ez :
  ez ≤ ex → (shl_align mx ex ez).2 = ez.
Proof.
  intros Hle. unfold shl_align.
  destruct (ez - ex) as [|d|d] eqn:Ed; try lia; simpl; lia.
Qed.

Lemma binary_round_exact s P e n :
  0 < n < 2 ^ 53 → e ≤ 0 → Z.pos P = n * 2 ^ (- e) →
  ∃ M, binary_round prec emax s P e = S754_finite s M (Z.log2 n - 52) ∧
       Z.pos M = n * 2 ^ (52 - Z.log2 n).
Proof.
  intros Hn He HP.
  assert (0 ≤ Z.log2 n < 53) as Hlog.
  { split; [apply Z.log2_nonneg|]. apply Z.log2_lt_pow2; lia. }
  unfold binary_round. rewrite digits2_pos_log2.
  assert (Z.log2 (Z.pos P) = Z.log2 n - e) as ->.
  { rewrite HP, Z.log2_mul_pow2 by lia. lia. }
  replace (fexp prec emax (Z.log2 n - e + 1 + e)) with (Z.log2 n - 52)
    by (unfold fexp, emin, prec, emax; lia).
  destruct (decide (Z.log2 n - 52 ≤ e)) as [Hshift|Hkeep].
  - pose proof (shl_align_value P e _ Hshift) as Hv.
    pose proof (shl_align_exponent P e _ Hshift) as Hx.
    destruct (shl_align P e (Z.log2 n - 52)) as [mz ez]. simpl in Hv, Hx.
    subst ez. apply (binary_round_aux_exact s mz _ n); [done|lia|].
    rewrite Hv, HP, <- Z.mul_assoc, <- Z.pow_add_r by lia.
    f_equal. f_equal. lia.
  - unfold shl_align.
    destruct (Z.log2 n - 52 - e) as [|d|d] eqn:Ed; try lia.
    apply (binary_round_aux_exact s P e n); [done|lia|done].
Qed.

Lemma valid_integer s m e z :
  valid_binary (S754_finite s m e) = true →
  cond_Zopp s (Z.pos m) * 2 ^ Z.max e 0 = z * 2 ^ Z.max (- e) 0 →
  Z.abs z < 2 ^ 53 →
  e = Z.log2 (Z.abs z) - 52 ∧ e ≤ 0 ∧ 0 < Z.abs z ∧
  Z.pos m = Z.abs z * 2 ^ (- e) ∧ cond_Zopp s (Z.abs z) = z.
Proof.
  intros Hvalid Hvalue Hz.
  unfold valid_binary, SpecFloat.valid_binary, bounded, canonical_mantissa
    in Hvalid.
  apply andb_prop in Hvalid as [Hcanon _]. apply Z.eqb_eq in Hcanon.
  rewrite digits2_pos_log2 in Hcanon.
  unfold fexp, emin, prec, emax in Hcanon.
  destruct (decide (0 < e)) as [Hpos|Hneg].
  - exfalso.
    rewrite (Z.max_l e), (Z.max_r (- e)), Z.mul_1_r in Hvalue by lia.
    assert (Z.log2 (Z.pos m) = 52) as Hlog by lia.
    pose proof (Z.log2_spec (Z.pos m) ltac:(lia)) as [Hlow _].
    rewrite Hlog in Hlow.
    assert (2 ^ 1 ≤ 2 ^ e) as Hpow by (apply Z.pow_le_mono_r; lia).
    destruct s; simpl in Hvalue; nia.
  - rewrite (Z.max_r e), (Z.max_l (- e)), Z.mul_1_r in Hvalue by lia.
    assert (0 < 2 ^ (- e)) as Hk by (apply Z.pow_pos_nonneg; lia).
    assert (0 < Z.abs z ∧ Z.pos m = Z.abs z * 2 ^ (- e) ∧
            cond_Zopp s (Z.abs z) = z) as (Hz0 & Hm & Hs).
    { destruct s; simpl in *; nia. }
    assert (Z.log2 (Z.pos m) = Z.log2 (Z.abs z) - e) as Hlog.
    { rewrite Hm, Z.log2_mul_pow2 by lia. lia. }
    pose proof (Z.log2_nonneg (Z.abs z)).
    repeat split; try done; lia.
Qed.

Lemma is_integer_ToIntegerOrInfinity x z :
  is_integer x z → ToIntegerOrInfinity x = Integer z.
Proof.
  unfold is_integer, ToIntegerOrInfinity.
  destruct (Prim2SF x) as [s|s| |s m e]; try done.
  - by intros ->.
  - intros Hvalue. f_equal.
    destruct (Z.leb_spec 0 e) as [Hpos|Hneg].
    + rewrite (Z.max_l e), (Z.max_r (- e)), Z.mul_1_r in Hvalue by lia.
      rewrite <- Hvalue. destruct s; simpl; lia.
    + rewrite (Z.max_r e), (Z.max_l (- e)), Z.mul_1_r in Hvalue by lia.
      assert (0 < 2 ^ (- e)) as Hk by (apply Z.pow_pos_nonneg; lia).
      destruct s; simpl in *.
      * replace (Z.pos m) with (- z * 2 ^ (- e)) by lia.
        rewrite Z.div_mul by lia. lia.
      * rewrite Hvalue, Z.div_mul by lia. done.
Qed.

Lemma is_integer_mul (x y : float) (a b : Z) :
  is_integer x a → is_integer y b → Z.abs (a * b) < 2 ^ 53 →
  is_integer (x * y) (a * b).
Proof.
  unfold is_integer. rewrite mul_spec. unfold SF64mul.
  pose proof (Prim2SF_valid x) as Hvx. pose proof (Prim2SF_valid y) as Hvy.
  destruct (Prim2SF x) as [sx|sx| |sx mx ex]; try done;
    destruct (Prim2SF y) as [sy|sy| |sy my ey]; try done; simpl SFmul.
  1-3: intros; subst; lia.
  intros Ha Hb Hab.
  assert (a ≠ 0 ∧ b ≠ 0) as [Ha0 Hb0].
  { split; intros ->; [clear Hb; destruct sx | clear Ha; destruct sy];
      simpl in *; pose proof (Z.pow_pos_nonneg 2 (Z.max ex 0));
      pose proof (Z.pow_pos_nonneg 2 (Z.max ey 0)); nia. }
  assert (Z.abs a < 2 ^ 53 ∧ Z.abs b < 2 ^ 53) as [Ha53 Hb53] by nia.
  destruct (valid_integer _ _ _ _ Hvx Ha Ha53) as (Hex & Hex0 & Hapos & Hmx & Hsx).
  destruct (valid_integer _ _ _ _ Hvy Hb Hb53) as (Hey & Hey0 & Hbpos & Hmy & Hsy).
  destruct (binary_round_aux_exact (xorb sx sy) (mx * my) (ex + ey)
              (Z.abs (a * b))) as (M & -> & HM).
  - lia.
  - rewrite Z.abs_mul.
    pose proof (Z.log2_mul_below _ _ Hapos Hbpos). lia.
  - rewrite Pos2Z.inj_mul, Hmx, Hmy, Z.abs_mul.
    replace (- (ex + ey)) with (- ex + - ey) by lia.
    rewrite Z.pow_add_r by lia. ring.
  - assert (0 ≤ Z.log2 (Z.abs (a * b)) < 53) as Hlog.
    { split; [apply Z.log2_nonneg|]. apply Z.log2_lt_pow2; lia. }
    rewrite (Z.max_r (_ - 52)), (Z.max_l (- (_ - 52))), Z.mul_1_r by lia.
    replace (- (Z.log2 (Z.abs (a * b)) - 52))
      with (52 - Z.log2 (Z.abs (a * b))) by lia.
    rewrite HM.
    assert (cond_Zopp (xorb sx sy) (Z.abs (a * b)) = a * b) as Hs.
    { rewrite <- Hsx at 2. rewrite <- Hsy at 2. rewrite Z.abs_mul.
      destruct sx, sy; simpl; lia. }
    set (K := 2 ^ _). set (A := Z.abs _) in *. clearbody K A.
    rewrite <- Hs. destruct (xorb sx sy); simpl; ring.
Qed.

Lemma aligned_value s m e ez a :
  cond_Zopp s (Z.pos m) * 2 ^ Z.max e 0 = a * 2 ^ Z.max (- e) 0 →
  ez ≤ e → ez ≤ 0 →
  cond_Zopp s (Z.pos (shl_align m e ez).1) = a * 2 ^ (- ez).
Proof.
  intros Hvalue Hle Hez. rewrite shl_align_value by done.
  assert (cond_Zopp s (Z.pos m * 2 ^ (e - ez))
          = cond_Zopp s (Z.pos m) * 2 ^ (e - ez)) as ->
    by (destruct s; simpl; lia).
  destruct (Z.le_gt_cases 0 e) as [Hpos|Hneg].
  - rewrite (Z.max_l e), (Z.max_r (- e)), Z.mul_1_r in Hvalue by lia.
    rewrite <- Hvalue, <- Z.mul_assoc, <- Z.pow_add_r by lia.
    repeat (f_equal; try lia).
  - rewrite (Z.max_r e), (Z.max_l (- e)), Z.mul_1_r in Hvalue by lia.
    rewrite Hvalue, <- Z.mul_assoc, <- Z.pow_add_r by lia.
    repeat (f_equal; try lia).
Qed.

Lemma is_integer_sub (x y : float) (a b : Z) :
  is_integer x a → is_integer y b →
  Z.abs b < 2 ^ 53 → Z.abs (a - b) < 2 ^ 53 →
  is_integer (x - y) (a - b).
Proof.
  unfold is_integer. rewrite sub_spec. unfold SF64sub.
  pose proof (Prim2SF_valid y) as Hvy.
  destruct (Prim2SF x) as [sx|sx| |sx mx ex]; try done;
    destruct (Prim2SF y) as [sy|sy| |sy my ey]; try done; simpl SFsub.
  - intros -> -> _ _. by destruct sx, sy.
  - intros -> Hb _ _. destruct sy; cbn [cond_Zopp negb] in *; lia.
  - intros Ha -> _ _. by rewrite Z.sub_0_r.
  - intros Ha Hb Hb53 Hab.
    destruct (valid_integer _ _ _ _ Hvy Hb Hb53) as (_ & Hey0 & _).
    set (ez := Z.min ex ey).
    assert (0 < 2 ^ (- ez)) as Hk by (apply Z.pow_pos_nonneg; lia).
    rewrite (aligned_value _ _ _ ez a Ha), (aligned_value _ _ _ ez b Hb) by lia.
    rewrite <- Z.mul_sub_distr_r.
    unfold binary_normalize.
    destruct ((a - b) * 2 ^ (- ez)) as [|P|P] eqn:EP.
    + apply Z.mul_eq_0_l in EP; [|lia]. by rewrite EP.
    + assert (0 < a - b) as Hpos.
      { apply (Z.mul_pos_cancel_r _ (2 ^ (- ez))); lia. }
      destruct (binary_round_exact false P ez (a - b)) as (M & -> & HM);
        [lia|lia|lia|].
      assert (0 ≤ Z.log2 (a - b) < 53) as Hlog.
      { split; [apply Z.log2_nonneg|]. apply Z.log2_lt_pow2; lia. }
      rewrite (Z.max_r (_ - 52)), (Z.max_l (- (_ - 52))), Z.mul_1_r by lia.
      replace (- (Z.log2 (a - b) - 52)) with (52 - Z.log2 (a - b)) by lia.
      simpl. lia.
    + assert (0 < b - a) as Hpos.
      { apply (Z.mul_pos_cancel_r _ (2 ^ (- ez))); lia. }
      destruct (binary_round_exact true P ez (b - a)) as (M & -> & HM);
        [lia|lia|lia|].
      assert (0 ≤ Z.log2 (b - a) < 53) as Hlog.
      { split; [apply Z.log2_nonneg|]. apply Z.log2_lt_pow2; lia. }
      rewrite (Z.max_r (_ - 52)), (Z.max_l (- (_ - 52))), Z.mul_1_r by lia.
      replace (- (Z.log2 (b - a) - 52)) with (52 - Z.log2 (b - a)) by lia.
      simpl. lia.
Qed.

Lemma shr_1_m r : 0 ≤ shr_m r → shr_m (shr_1 r) = shr_m r / 2.
Proof.
  destruct r as [m rr ss]. cbn [shr_m]. intros Hm.
  rewrite <- Z.div2_div. by destruct m as [|[p|p|]|].
Qed.

Lemma iter_shr_1_m (k : nat) r :
  0 ≤ shr_m r → shr_m (Nat.iter k shr_1 r) = shr_m r / 2 ^ Z.of_nat k.
Proof.
  intros Hm. induction k as [|k IH]; simpl Nat.iter.
  - by rewrite Z.div_1_r.
  - rewrite shr_1_m, IH.
    + rewrite Nat2Z.inj_succ, Z.pow_succ_r, Z.div_div by lia.
      f_equal. lia.
    + rewrite IH. apply Z.div_pos; lia.
Qed.

Lemma round_nearest_even_cases m l :
  round_nearest_even m l = m ∨ round_nearest_even m l = m + 1.
Proof. destruct l as [|[]]; simpl; try destruct (Z.even m); auto. Qed.

(** A value of 2^53 or more is rounded to an integer of 2^53 or more, or
    to infinity. *)
Lemma binary_round_aux_big s P e :
  52 ≤ Z.log2 (Z.pos P) → 1 ≤ Z.log2 (Z.pos P) - 52 + e →
  binary_round_aux prec emax s (Z.pos P) e loc_Exact = S754_infinity s ∨
  ∃ M e', binary_round_aux prec emax s (Z.pos P) e loc_Exact
          = S754_finite s M e' ∧ 1 ≤ e' ∧ 2 ^ 52 ≤ Z.pos M.
Proof.
  intros Hdigits Hbig.
  set (k := Z.log2 (Z.pos P) - 52) in *.
  unfold binary_round_aux, shr_fexp. cbn [Zdigits2].
  rewrite digits2_pos_log2.
  replace (fexp prec emax (Z.log2 (Z.pos P) + 1 + e) - e) with k
    by (unfold fexp, emin, prec, emax; lia).
  destruct (shr (shr_record_of_loc (Z.pos P) loc_Exact) e k) as [r1 e1] eqn:E1.
  assert (shr_m r1 = Z.pos P / 2 ^ k ∧ e1 = e + k) as [Hm1 ->].
  { unfold shr in E1. destruct k as [|kp|kp] eqn:Ek; try lia.
    - injection E1 as <- <-. cbn. by rewrite Z.div_1_r, Z.add_0_r.
    - injection E1 as <- <-. rewrite iter_pos_nat, iter_shr_1_m by done.
      by rewrite positive_nat_Z. }
  assert (2 ^ 52 ≤ shr_m r1 < 2 ^ 53) as Hr1.
  { rewrite Hm1. pose proof (Z.log2_spec (Z.pos P) ltac:(lia)) as [Hlow Hhigh].
    replace (Z.log2 (Z.pos P)) with (52 + k) in Hlow by lia.
    replace (Z.succ (Z.log2 (Z.pos P))) with (53 + k) in Hhigh by lia.
    rewrite Z.pow_add_r in Hlow, Hhigh by lia.
    assert (0 < 2 ^ k) by (apply Z.pow_pos_nonneg; lia).
    split.
    - apply Z.div_le_lower_bound; lia.
    - apply Z.div_lt_upper_bound; lia. }
  set (m2 := round_nearest_even (shr_m r1) (loc_of_shr_record r1)).
  assert (2 ^ 52 ≤ m2 ≤ 2 ^ 53) as Hm2.
  { subst m2. destruct (round_nearest_even_cases (shr_m r1)
                          (loc_of_shr_record r1)) as [-> | ->]; lia. }
  clearbody m2. clear Hm1 Hr1 r1 E1.
  destruct m2 as [|q|q]; try lia.
  cbn [Zdigits2]. rewrite digits2_pos_log2.
  destruct (decide (Z.pos q = 2 ^ 53)) as [Hq|Hq].
  - assert (Z.log2 (Z.pos q) = 53) as Hlog.
    { rewrite Hq. by apply Z.log2_pow2. }
    rewrite Hlog.
    replace (fexp prec emax (53 + 1 + (e + k)) - (e + k))
      with 1 by (unfold fexp, emin, prec, emax; lia).
    change (2 ^ 53) with 9007199254740992 in Hq.
    destruct q as [q|q|]; try lia.
    cbn [shr shr_record_of_loc SpecFloat.iter_pos shr_1 shr_m].
    destruct (Z.leb_spec (e + k + 1) (emax - prec)); [right|by left].
    eexists _, _. split; [done|]. split; [lia|].
    change (2 ^ 52) with 4503599627370496. lia.
  - assert (Z.log2 (Z.pos q) = 52) as Hlog.
    { apply Z.log2_unique; lia. }
    rewrite Hlog.
    replace (fexp prec emax (52 + 1 + (e + k)) - (e + k))
      with 0 by (unfold fexp, emin, prec, emax; lia).
    cbn [shr shr_record_of_loc shr_m].
    destruct (Z.leb_spec (e + k) (emax - prec)); [right|by left].
    eexists _, _. split; [done|]. split; [lia|lia].
Qed.

(** The double of an integer other than 0 is normal. *)
Lemma valid_integer_digits s m e z :
  valid_binary (S754_finite s m e) = true →
  cond_Zopp s (Z.pos m) * 2 ^ Z.max e 0 = z * 2 ^ Z.max (- e) 0 →
  Z.log2 (Z.pos m) = 52.
Proof.
  intros Hvalid Hvalue.
  unfold valid_binary, SpecFloat.valid_binary, bounded, canonical_mantissa
    in Hvalid.
  apply andb_prop in Hvalid as [Hcanon _]. apply Z.eqb_eq in Hcanon.
  rewrite digits2_pos_log2 in Hcanon.
  unfold fexp, emin, prec, emax in Hcanon.
  destruct (decide (e = -1074)) as [->|Hne]; [exfalso|lia].
  change (Z.max (-1074) 0) with 0 in Hvalue.
  change (Z.max (- -1074) 0) with 1074 in Hvalue.
  rewrite Z.mul_1_r in Hvalue.
  assert (1074 ≤ Z.log2 (Z.pos m)); [|lia].
  assert (0 < 2 ^ 1074) as Hk by (by apply Z.pow_pos_nonneg).
  rewrite <- (Z.log2_pow2 1074) by done. apply Z.log2_le_mono.
  destruct s; simpl in Hvalue; nia.
Qed.

Lemma is_integer_positive s m e z :
  cond_Zopp s (Z.pos m) * 2 ^ Z.max e 0 = z * 2 ^ Z.max (- e) 0 →
  0 < z → s = false.
Proof.
  intros Hvalue Hz.
  assert (0 < 2 ^ Z.max e 0) by (apply Z.pow_pos_nonneg; lia).
  assert (0 < 2 ^ Z.max (- e) 0) by (apply Z.pow_pos_nonneg; lia).
  destruct s; [simpl in Hvalue; nia|done].
Qed.

Lemma is_integer_log2 m e z :
  Z.pos m * 2 ^ Z.max e 0 = z * 2 ^ Z.max (- e) 0 → 0 < z →
  Z.log2 z = Z.log2 (Z.pos m) + e.
Proof.
  intros Hvalue Hz.
  assert (Z.log2 (Z.pos m * 2 ^ Z.max e 0)
          = Z.log2 (z * 2 ^ Z.max (- e) 0)) as Hlog by (by rewrite Hvalue).
  rewrite !Z.log2_mul_pow2 in Hlog by lia. lia.
Qed.

Lemma finite_at_least (x : float) M e' :
  Prim2SF x = S754_finite false M e' → 1 ≤ e' → 2 ^ 52 ≤ Z.pos M →
  at_least x (2 ^ 53).
Proof.
  intros Hx He' HM. right. exists (Z.pos M * 2 ^ e'). split.
  - unfold is_integer. rewrite Hx.
    rewrite (Z.max_l e'), (Z.max_r (- e')) by lia. simpl. lia.
  - assert (2 ^ 1 ≤ 2 ^ e') by (apply Z.pow_le_mono_r; lia).
    change (2 ^ 53) with (2 ^ 52 * 2 ^ 1). nia.
Qed.

(** A product of 2^53 or more is an integer of 2^53 or more, or
    infinity. *)
Lemma is_integer_mul_big (x y : float) (a b : Z) :
  is_integer x a → is_integer y b → 0 < a → 0 < b → 2 ^ 53 ≤ a * b →
  at_least (x * y) (2 ^ 53).
Proof.
  intros Ha Hb Ha0 Hb0 Hab.
  pose proof (Prim2SF_valid x) as Hvx. pose proof (Prim2SF_valid y) as Hvy.
  pose proof (mul_spec x y) as Hmul. unfold SF64mul in Hmul.
  unfold is_integer in Ha, Hb.
  destruct (Prim2SF x) as [sx|sx| |sx mx ex]; try done; [lia|].
  destruct (Prim2SF y) as [sy|sy| |sy my ey]; try done; [lia|].
  pose proof (is_integer_positive _ _ _ _ Ha Ha0) as ->.
  pose proof (is_integer_positive _ _ _ _ Hb Hb0) as ->.
  pose proof (valid_integer_digits _ _ _ _ Hvx Ha) as Hdx.
  pose proof (valid_integer_digits _ _ _ _ Hvy Hb) as Hdy.
  cbn [cond_Zopp] in Ha, Hb.
  pose proof (is_integer_log2 _ _ _ Ha Ha0) as Hla.
  pose proof (is_integer_log2 _ _ _ Hb Hb0) as Hlb.
  cbn [SFmul xorb] in Hmul.
  assert (Z.log2 (Z.pos (mx * my)) + (ex + ey) = Z.log2 (a * b)) as Hlog.
  { assert (Z.pos (mx * my) * 2 ^ (Z.max ex 0 + Z.max ey 0)
            = a * b * 2 ^ (Z.max (- ex) 0 + Z.max (- ey) 0)) as Hvalue.
    { rewrite !Z.pow_add_r, Pos2Z.inj_mul by lia.
      transitivity ((Z.pos mx * 2 ^ Z.max ex 0) * (Z.pos my * 2 ^ Z.max ey 0));
        [ring|]. rewrite Ha, Hb. ring. }
    apply (f_equal Z.log2) in Hvalue.
    rewrite !Z.log2_mul_pow2 in Hvalue by lia. lia. }
  assert (53 ≤ Z.log2 (a * b)) as Hbig.
  { rewrite <- (Z.log2_pow2 53) by done. by apply Z.log2_le_mono. }
  pose proof (Z.log2_mul_below (Z.pos mx) (Z.pos my) ltac:(done) ltac:(done))
    as Hbelow.
  rewrite <- Pos2Z.inj_mul in Hbelow.
  destruct (binary_round_aux_big false (mx * my) (ex + ey))
    as [Hinf|(M & e' & Hfin & He' & HM)]; [lia|lia| |].
  - left. by rewrite Hmul.
  - apply (finite_at_least _ M e'); [|done..]. by rewrite Hmul.
Qed.

Lemma at_least_weaken (x : float) (t t' : Z) :
  at_least x t → t' ≤ t → at_least x t'.
Proof.
  intros [Hinf|(z & Hz & Ht)] Hle; [by left|].
  right. exists z. split; [done|lia].
Qed.

(** So is the product of such a double and a positive integer. *)
Lemma at_least_mul (x y : float) (t b : Z) :
  at_least x t → 2 ^ 53 - 1 ≤ t → is_integer y b → 1 ≤ b →
  at_least (x * y) (2 ^ 53 - 1).
Proof.
  intros [Hinf|(a & Ha & Hta)] Ht Hb Hb1.
  - left. rewrite mul_spec, Hinf. unfold SF64mul, is_integer in *.
    destruct (Prim2SF y) as [sy|sy| |sy my ey]; try done; [lia|].
    by rewrite (is_integer_positive _ _ _ _ Hb) by lia.
  - destruct (Z.lt_ge_cases (a * b) (2 ^ 53)) as [Hsmall|Hbig].
    + right. exists (a * b). split; [|nia].
      apply is_integer_mul; [done..|]. apply Z.abs_lt. nia.
    + apply (at_least_weaken _ (2 ^ 53)); [|lia].
      apply (is_integer_mul_big x y a b); [done|done|lia|lia|done].
Qed.

(** One less than an integer of 2^53 or more is an integer of 2^53 - 1
    or more. *)
Lemma at_least_sub_1 (x : float) (a : Z) :
  is_integer x a → 2 ^ 53 ≤ a → at_least (x - 1) (2 ^ 53 - 1).
Proof.
  intros Ha Hbig.
  destruct (decide (a = 2 ^ 53)) as [->|Hne].
  { right. exists (2 ^ 53 - 1). split; [|done].
    apply is_integer_sub; [done|by vm_compute|done|done]. }
  apply (at_least_weaken _ (2 ^ 53)); [|lia].
  pose proof (sub_spec x 1) as Hsub. unfold SF64sub in Hsub.
  change (Prim2SF 1) with (S754_finite false 4503599627370496 (-52)) in Hsub.
  unfold is_integer in Ha.
  pose proof (Prim2SF_valid x) as Hvx.
  destruct (Prim2SF x) as [sx|sx| |sx mx ex]; try done; [lia|].
  pose proof (is_integer_positive _ _ _ _ Ha ltac:(lia)) as ->.
  pose proof (valid_integer_digits _ _ _ _ Hvx Ha) as Hdx.
  cbn [cond_Zopp] in Ha.
  pose proof (is_integer_log2 _ _ _ Ha ltac:(lia)) as Hla.
  assert (53 ≤ Z.log2 a) as Hlog.
  { rewrite <- (Z.log2_pow2 53) by done. by apply Z.log2_le_mono. }
  assert (53 ≤ Z.log2 (a - 1)) as Hlog1.
  { rewrite <- (Z.log2_pow2 53) by done. apply Z.log2_le_mono. lia. }
  cbn [SFsub] in Hsub.
  replace (Z.min ex (-52)) with (-52) in Hsub by lia.
  rewrite (aligned_value false mx ex (-52) a) in Hsub by (done || lia).
  change (cond_Zopp false (Z.pos (shl_align 4503599627370496 (-52) (-52)).1))
    with (2 ^ 52) in Hsub.
  change (- -52) with 52 in Hsub.
  replace (a * 2 ^ 52 - 2 ^ 52) with ((a - 1) * 2 ^ 52) in Hsub by lia.
  destruct ((a - 1) * 2 ^ 52) as [|P|P] eqn:EP; try lia.
  assert (Z.log2 (Z.pos P) = Z.log2 (a - 1) + 52) as HlogP.
  { rewrite <- EP, Z.log2_mul_pow2 by lia. lia. }
  unfold binary_normalize, binary_round in Hsub.
  rewrite digits2_pos_log2, HlogP in Hsub.
  replace (fexp prec emax (Z.log2 (a - 1) + 52 + 1 + -52))
    with (Z.log2 (a - 1) - 52) in Hsub
    by (unfold fexp, emin, prec, emax; lia).
  unfold shl_align in Hsub.
  destruct (Z.log2 (a - 1) - 52 - -52) as [|d|d] eqn:Ed; try lia.
  destruct (binary_round_aux_big false P (-52))
    as [Hinf|(M & e' & Hfin & He' & HM)]; [lia|lia| |].
  - left. by rewrite Hsub.
  - apply (finite_at_least _ M e'); [|done..]. by rewrite Hsub.
Qed.

(** The engine's Number of an integer below 2^53 is that integer. *)
Lemma of_Z_is_integer (z : Z) :
  Z.abs z < 2 ^ 53 → is_integer (AsciiRuntime.of_Z z) z.
Proof.
  intros Hz. unfold is_integer, AsciiRuntime.of_Z, binary_normalize.
  assert (∀ s m, Z.pos m < 2 ^ 53 →
            ∃ M, binary_round prec emax s m 0
                 = S754_finite s M (Z.log2 (Z.pos m) - 52) ∧
                 Z.pos M = Z.pos m * 2 ^ (52 - Z.log2 (Z.pos m)) ∧
                 valid_binary (S754_finite s M (Z.log2 (Z.pos m) - 52))
                 = true) as Hround.
  { intros s m Hm.
    destruct (binary_round_exact s m 0 (Z.pos m)) as (M & HM & Hvalue);
      [lia|lia|simpl; lia|].
    exists M. split; [done|]. split; [done|].
    assert (0 ≤ Z.log2 (Z.pos m) < 53) as Hlog.
    { split; [apply Z.log2_nonneg|]. apply Z.log2_lt_pow2; lia. }
    unfold valid_binary, SpecFloat.valid_binary, bounded, canonical_mantissa.
    rewrite digits2_pos_log2, Hvalue, Z.log2_mul_pow2 by lia.
    apply andb_true_intro. split; [apply Z.eqb_eq|apply Z.leb_le].
    all: unfold fexp, emin, prec, emax; lia. }
  destruct z as [|m|m].
  - by vm_compute.
  - destruct (Hround false m) as (M & -> & HM & Hvalid); [lia|].
    rewrite (Prim2SF_SF2Prim _ Hvalid).
    assert (0 ≤ Z.log2 (Z.pos m) < 53) as Hlog.
    { split; [apply Z.log2_nonneg|]. apply Z.log2_lt_pow2; lia. }
    rewrite (Z.max_r (_ - 52)), (Z.max_l (- (_ - 52))), Z.mul_1_r by lia.
    replace (- (Z.log2 (Z.pos m) - 52)) with (52 - Z.log2 (Z.pos m)) by lia.
    cbn [cond_Zopp]. lia.
  - destruct (Hround true m) as (M & -> & HM & Hvalid); [lia|].
    rewrite (Prim2SF_SF2Prim _ Hvalid).
    assert (0 ≤ Z.log2 (Z.pos m) < 53) as Hlog.
    { split; [apply Z.log2_nonneg|]. apply Z.log2_lt_pow2; lia. }
    rewrite (Z.max_r (_ - 52)), (Z.max_l (- (_ - 52))), Z.mul_1_r by lia.
    replace (- (Z.log2 (Z.pos m) - 52)) with (52 - Z.log2 (Z.pos m)) by lia.
    cbn [cond_Zopp]. lia.
Qed.

End IntegerDoubles.

Lemma is_integer_1 : is_integer 1 1.
Proof. by vm_compute. Qed.

Lemma slice_numbers_integers {A} (O : list A) (start end_ : float) (s e : Z) :
  is_integer start s → is_integer end_ e →
  slice_numbers O start end_ = slice O s e.
Proof.
  intros Hs He. unfold slice_numbers, slice.
  rewrite (is_integer_ToIntegerOrInfinity _ _ Hs),
    (is_integer_ToIntegerOrInfinity _ _ He).
  by rewrite !relative_index_Integer.
Qed.

Lemma relative_index_nonneg (len : Z) (relative : integer_or_infinity) :
  (0 ≤ len)%Z → (0 ≤ relative_index len relative)%Z.
Proof.
  intros Hlen. destruct relative as [|i|]; simpl; try lia.
  destruct (Z.ltb_spec i 0); lia.
Qed.

Lemma slice_numbers_to_0 {A} (O : list A) (start end_ : float) :
  ToIntegerOrInfinity end_ = Integer 0 → slice_numbers O start end_ = [].
Proof.
  intros He. unfold slice_numbers. rewrite He.
  pose proof (relative_index_nonneg (Z.of_nat (length O))
                (ToIntegerOrInfinity start) ltac:(lia)) as Hk.
  rewrite relative_index_Integer. change (0 <? 0)%Z with false. cbv iota.
  replace (Z.to_nat (Z.max _ 0)) with 0%nat by lia. done.
Qed.

Lemma slice_numbers_relative {A} (O : list A) (start end_ : float) (s e : Z) :
  let len := Z.of_nat (length O) in
  relative_index len (ToIntegerOrInfinity start)
    = relative_index len (Integer s) →
  relative_index len (ToIntegerOrInfinity end_)
    = relative_index len (Integer e) →
  slice_numbers O start end_ = slice O s e.
Proof.
  intros len Hs He. unfold slice_numbers, slice. fold len.
  by rewrite Hs, He, !relative_index_Integer.
Qed.

(** An index of the length or more, or plus infinity, is the length. *)
Lemma relative_index_at_least (len t : Z) (x : float) (z : Z) :
  at_least x t → (0 ≤ len ≤ t)%Z → (len ≤ z)%Z →
  relative_index len (ToIntegerOrInfinity x)
  = relative_index len (Integer z).
Proof.
  intros [Hinf|(z' & Hz' & Ht)] Hlen Hz.
  - unfold ToIntegerOrInfinity. rewrite Hinf, relative_index_Integer.
    simpl. destruct (Z.ltb_spec z 0); lia.
  - rewrite (is_integer_ToIntegerOrInfinity _ _ Hz'), !relative_index_Integer.
    destruct (Z.ltb_spec z' 0), (Z.ltb_spec z 0); lia.
Qed.

(** A product with the number 0 is truncated to 0, be it 0 or NaN. *)
Lemma mul_0_l_ToIntegerOrInfinity (x y : float) :
  is_integer x 0 → ToIntegerOrInfinity (x * y) = Integer 0.
Proof.
  unfold is_integer, ToIntegerOrInfinity. rewrite mul_spec. unfold SF64mul.
  destruct (Prim2SF x) as [sx|sx| |sx mx ex]; try done.
  - intros _. by destruct (Prim2SF y).
  - intros Hvalue. exfalso.
    assert (0 < 2 ^ Z.max ex 0)%Z by (apply Z.pow_pos_nonneg; lia).
    destruct sx; simpl in Hvalue; nia.
Qed.

Lemma mul_0_r_ToIntegerOrInfinity (x y : float) :
  is_integer y 0 → ToIntegerOrInfinity (x * y) = Integer 0.
Proof.
  unfold is_integer, ToIntegerOrInfinity. rewrite mul_spec. unfold SF64mul.
  destruct (Prim2SF y) as [sy|sy| |sy my ey]; try done.
  - intros _. by destruct (Prim2SF x).
  - intros Hvalue. exfalso.
    assert (0 < 2 ^ Z.max ey 0)%Z by (apply Z.pow_pos_nonneg; lia).
    destruct sy; simpl in Hvalue; nia.
Qed.

(** The index of a product of integers that are not negative, in an
    array of fewer than 2^53 elements: rounding does not show. *)
Lemma relative_index_product (len : Z) (x y : float) (a b : Z) :
  is_integer x a → is_integer y b → (0 ≤ a)%Z → (0 ≤ b)%Z →
  (0 ≤ len < 2 ^ 53)%Z →
  relative_index len (ToIntegerOrInfinity (x * y))
  = relative_index len (Integer (a * b)).
Proof.
  intros Ha Hb Ha0 Hb0 Hlen.
  destruct (decide (a = 0%Z)) as [->|Ha1].
  { by rewrite (mul_0_l_ToIntegerOrInfinity _ _ Ha). }
  destruct (decide (b = 0%Z)) as [->|Hb1].
  { by rewrite (mul_0_r_ToIntegerOrInfinity _ _ Hb), Z.mul_0_r. }
  destruct (Z.lt_ge_cases (a * b) (2 ^ 53)) as [Hsmall|Hbig].
  - rewrite (is_integer_ToIntegerOrInfinity _ (a * b)); [done|].
    apply is_integer_mul; [done..|]. apply Z.abs_lt. nia.
  - apply (relative_index_at_least _ (2 ^ 53)); [|lia..].
    apply (is_integer_mul_big x y a b); [done|done|lia|lia|done].
Qed.

(** The two indices of a page: on integers that are not negative, and a
    list of fewer than 2^53 records, the handler slices as if it computed
    on integers. *)
Lemma slice_numbers_page {A} (O : list A) (x y : float) (p l : Z) :
  is_integer x p → is_integer y l → (0 ≤ p)%Z → (0 ≤ l)%Z →
  (Z.of_nat (length O) < 2 ^ 53)%Z →
  slice_numbers O ((x - 1) * y) (x * y) = slice O ((p - 1) * l) (p * l).
Proof.
  intros Hp Hl Hp0 Hl0 Hlen.
  destruct (decide (p = 0%Z)) as [->|Hp1].
  { rewrite slice_numbers_to_0 by (by apply mul_0_l_ToIntegerOrInfinity).
    by rewrite slice_to_0. }
  apply slice_numbers_relative;
    [|apply relative_index_product; [done|done|lia..]].
  destruct (Z.lt_ge_cases p (2 ^ 53)) as [Hsmall|Hbig].
  - apply relative_index_product; [|done|lia..].
    apply is_integer_sub; [done|apply is_integer_1|by vm_compute|].
    apply Z.abs_lt. lia.
  - destruct (decide (l = 0%Z)) as [->|Hl1].
    { by rewrite (mul_0_r_ToIntegerOrInfinity _ _ Hl), Z.mul_0_r. }
    apply (relative_index_at_least _ (2 ^ 53 - 1)); [|lia|nia].
    apply (at_least_mul _ _ (2 ^ 53 - 1) l); [|done|done|lia].
    by apply (at_least_sub_1 _ p).
Qed.

Lemma filter_removes_non_matching {A} (P matching : A → Prop)
    `{∀ x, Decision (P x)} (l : list A) :
  (∀ x, P x ↔ matching x) → removes_non_matching matching l (filter P l).
Proof.
  intros Hiff. induction l as [|x l IH]; [constructor|].
  rewrite filter_cons. case_decide as HP.
  - constructor; [by apply Hiff|done].
  - constructor; [by rewrite <- Hiff|done].
Qed.

Lemma ToNumber_Ok_ToString `{Runtime} (v : value) (x : float) :
  ToNumber v = Ok x → ∃ s, ToString v = Ok s.
Proof.
  destruct v; try (by eauto); cbn [ToNumber]; intros Hx.
  all: by destruct (ToString _) as [s|]; [exists s|].
Qed.

Section Routes.
Context `{Runtime}.
Variable passengersData : list passenger.

(** On an integer page and an integer limit that are not negative, the
    data are the records at the indices from (page-1)*limit up to, not
    including, page*limit, in list order; there are at most limit of them,
    and none when (page-1)*limit is past the end of the list. *)
Lemma list_passengers_page (page limit : option Z) :
  let p := default 1%Z page in
  let l := default 20%Z limit in
  (0 ≤ p)%Z → (0 ≤ l)%Z →
  let r := list_passengers passengersData page limit in
  status r = 200%Z ∧
  json r = Page_json (length passengersData) p l (data_of r) ∧
  (∀ k : nat,
     data_of r !! k =
       if decide (Z.of_nat k < l)%Z
       then item passengersData ((p - 1) * l + Z.of_nat k)
       else None) ∧
  (Z.of_nat (length (data_of r)) ≤ l)%Z ∧
  ((Z.of_nat (length passengersData) ≤ (p - 1) * l)%Z → data_of r = []).
Proof.
  intros p l Hp Hl r. subst r. unfold list_passengers, data_of. simpl.
  fold p l. clearbody p l.
  split; [done|]. split; [done|].
  destruct (decide (p = 0%Z)) as [->|Hp1].
  - rewrite slice_to_0. repeat split.
    + intros k. rewrite lookup_nil. case_decide; [|done].
      unfold item. by rewrite decide_False by lia.
    + simpl. lia.
  - assert (0 ≤ (p - 1) * l ≤ p * l)%Z as Hse by nia.
    split; [|split].
    + intros k. rewrite lookup_slice_forward by done.
      repeat case_decide; try done; lia.
    + rewrite slice_forward by done. rewrite length_take. nia.
    + intros Hout. rewrite slice_forward by done.
      rewrite drop_ge by lia. by rewrite take_nil.
Qed.

(** On parameters that the engine reads as integers that are not
    negative, however large, and a list of fewer than 2^53 records,
    [get_passengers] answers what [list_passengers] answers on these
    integers. *)
Lemma get_passengers_on_naturals (query : gmap string value) (p l : Z) :
  reads_as_integer (query_parameter query "page" 1) p →
  reads_as_integer (query_parameter query "limit" 20) l →
  (0 ≤ p)%Z → (0 ≤ l)%Z →
  (Z.of_nat (length passengersData) < 2 ^ 53)%Z →
  get_passengers passengersData query
  = {| listing_status := status (list_passengers passengersData
                                   (Some p) (Some l));
       listing_json :=
         Listing_json (length passengersData) (Some p) (Some l)
           (data_of (list_passengers passengersData (Some p) (Some l))) |}.
Proof.
  intros [(x & Hx & Hxp) (sp & Hsp & Hpp)] [(y & Hy & Hyl) (sl & Hsl & Hpl)]
    Hp Hl Hlen.
  unfold get_passengers. rewrite Hx, Hy, Hsp, Hsl. cbn [mbind result_bind].
  rewrite Hpp, Hpl. unfold list_passengers, data_of; simpl.
  do 2 f_equal. by apply slice_numbers_page.
Qed.

(** C4, for a page p and a limit l that the engine reads as integers that
    are not negative (plain decimal integers; 1 and 20 stand in for an
    absent parameter), on a list of fewer than 2^53 records, as every
    JavaScript array is: the answer is a 200 with the total, the page p
    and the limit l, and the data are the records at the indices from
    (p-1)*l up to, not including, p*l, in list order; there are at most l
    of them, and none when (p-1)*l is past the end of the list. *)
Theorem get_passengers_page (query : gmap string value) (p l : Z) :
  reads_as_integer (query_parameter query "page" 1) p →
  reads_as_integer (query_parameter query "limit" 20) l →
  (0 ≤ p)%Z → (0 ≤ l)%Z →
  (Z.of_nat (length passengersData) < 2 ^ 53)%Z →
  ∃ data,
    get_passengers passengersData query
    = {| listing_status := 200;
         listing_json :=
           Listing_json (length passengersData) (Some p) (Some l) data |} ∧
    (∀ k : nat,
       data !! k =
         if decide (Z.of_nat k < l)%Z
         then item passengersData ((p - 1) * l + Z.of_nat k)
         else None) ∧
    (Z.of_nat (length data) ≤ l)%Z ∧
    ((Z.of_nat (length passengersData) ≤ (p - 1) * l)%Z → data = []).
Proof.
  intros Hpage Hlimit Hp Hl Hlen.
  exists (data_of (list_passengers passengersData (Some p) (Some l))).
  destruct (list_passengers_page (Some p) (Some l))
    as (Hstatus & _ & Hdata); [done..|].
  split; [|exact Hdata].
  by rewrite (get_passengers_on_naturals query p l), Hstatus.
Qed.

(** C5: the answer to [GET /:id] is the first record whose PassengerId is
    the parsed parameter, and a 404 exactly when the list has no such
    record; so every id of the list is answered with a record of that id. *)
Theorem passenger_by_id_first (id : string) :
  (∀ p, passenger_by_id passengersData id
          = {| status := 200; json := Passenger_json p |} ↔
        ∃ i, passengersData !! i = Some p ∧
             Some (PassengerId p) = parseInt id ∧
             ∀ j q, passengersData !! j = Some q → j < i →
                    Some (PassengerId q) ≠ parseInt id) ∧
  (status (passenger_by_id passengersData id) = 404%Z ↔
   ∀ q, q ∈ passengersData → Some (PassengerId q) ≠ parseInt id) ∧
  (∀ p, p ∈ passengersData → parseInt id = Some (PassengerId p) →
        ∃ q, passenger_by_id passengersData id
               = {| status := 200; json := Passenger_json q |} ∧
             PassengerId q = PassengerId p).
Proof.
  unfold passenger_by_id.
  destruct (list_find _ passengersData) as [[i q]|] eqn:Hfind.
  - apply list_find_Some in Hfind as (Hi & Hq & Hfirst).
    split; [|split].
    + intros p. split.
      * intros [= <-]. eauto.
      * intros (i' & Hi' & Hp & Hfirst').
        destruct (Nat.lt_total i i') as [Hlt|[->|Hlt]].
        -- by destruct (Hfirst' _ _ Hi Hlt).
        -- rewrite Hi in Hi'. by injection Hi' as ->.
        -- by destruct (Hfirst _ _ Hi' Hlt).
    + simpl. split; [done|]. intros Hnone.
      destruct (Hnone q); [by eapply list_elem_of_lookup_2|done].
    + intros p _ Hp. exists q. split; [done|]. congruence.
  - apply list_find_None in Hfind. rewrite Forall_forall in Hfind.
    split; [|split].
    + intros p. split; [done|]. intros (i & Hi & Hp & _).
      destruct (Hfind p); [by eapply list_elem_of_lookup_2|done].
    + done.
    + intros p Hin Hp. destruct (Hfind p Hin). by rewrite Hp.
Qed.

(** C6: each of the class, survival and name routes answers the list with
    the records that do not match removed and the others left as and where
    they are, so that the data are a sublist of the list, in list order,
    that holds the matching records of the list and no other; a record
    matches when its class, or its survival flag, is the parsed parameter,
    or when its lower-cased name has the lower-cased parameter as a
    substring.  Filtering the data again the same way changes nothing. *)
Theorem filters_remove_only_non_matching (param : string) :
  let of_class p := parseInt param = Some (Pclass p) in
  let of_status p := parseInt param = Some (Survived p) in
  let named p :=
    ∃ before after,
      toLowerCase (Name p) = before +:+ toLowerCase param +:+ after in
  let by_class := data_of (passengers_by_class passengersData param) in
  let by_survival := data_of (passengers_by_survival passengersData param) in
  let by_name := data_of (search_passengers passengersData param) in
  (removes_non_matching of_class passengersData by_class ∧
   (∀ p, p ∈ by_class ↔ p ∈ passengersData ∧ of_class p) ∧
   by_class `sublist_of` passengersData ∧
   data_of (passengers_by_class by_class param) = by_class) ∧
  (removes_non_matching of_status passengersData by_survival ∧
   (∀ p, p ∈ by_survival ↔ p ∈ passengersData ∧ of_status p) ∧
   by_survival `sublist_of` passengersData ∧
   data_of (passengers_by_survival by_survival param) = by_survival) ∧
  (removes_non_matching named passengersData by_name ∧
   (∀ p, p ∈ by_name ↔ p ∈ passengersData ∧ named p) ∧
   by_name `sublist_of` passengersData ∧
   data_of (search_passengers by_name param) = by_name).
Proof.
  intros of_class of_status named by_class by_survival by_name.
  subst by_class by_survival by_name.
  unfold passengers_by_class, passengers_by_survival, search_passengers,
    data_of; simpl.
  assert (∀ p, includes (toLowerCase (Name p)) (toLowerCase param) = true
               ↔ named p) as Hnamed by (intros p; apply includes_substring).
  assert (∀ (P matching : passenger → Prop) `{∀ x, Decision (P x)},
            (∀ p, P p ↔ matching p) →
            removes_non_matching matching passengersData
              (filter P passengersData) ∧
            (∀ p, p ∈ filter P passengersData
                  ↔ p ∈ passengersData ∧ matching p) ∧
            filter P passengersData `sublist_of` passengersData ∧
            filter P (filter P passengersData) = filter P passengersData)
    as Hfilter.
  { intros P matching ? Hiff. split; [|split; [|split]].
    - by apply filter_removes_non_matching.
    - intros p. rewrite list_elem_of_filter, Hiff. tauto.
    - apply sublist_filter.
    - rewrite list_filter_filter. apply list_filter_iff. tauto. }
  split; [|split].
  - apply Hfilter. intros p. unfold of_class. split; congruence.
  - apply Hfilter. intros p. unfold of_status. split; congruence.
  - by apply Hfilter.
Qed.

(** C7: when every class is 1, 2 or 3 and every sex is male or female,
    the three class counts add up to the total, and so do the two sex
    counts. *)
Theorem stats_counts_sum_to_total :
  Forall (λ p, Pclass p = 1 ∨ Pclass p = 2 ∨ Pclass p = 3)%Z passengersData →
  Forall (λ p, Sex p = "male" ∨ Sex p = "female") passengersData →
  ∃ c1 c2 c3 male female,
    json (stats_summary passengersData)
      = Stats_json (length passengersData) (c1, c2, c3) (male, female) ∧
    c1 + c2 + c3 = length passengersData ∧
    male + female = length passengersData.
Proof.
  intros Hclass Hsex. unfold stats_summary. simpl.
  do 5 eexists. split; [reflexivity|]. split.
  - clear Hsex. induction Hclass as [|p l Hp _ IH]; [done|].
    rewrite !filter_cons. simpl.
    destruct Hp as [Hp|[Hp|Hp]]; rewrite Hp;
      repeat case_decide; try done; simpl; lia.
  - clear Hclass. induction Hsex as [|p l Hp _ IH]; [done|].
    rewrite !filter_cons. simpl.
    destruct Hp as [Hp|Hp]; rewrite Hp;
      repeat case_decide; try done; simpl; lia.
Qed.

End Routes.

(** The claim C4 fails off the non-negative integers, on the five sample
    records.  With [?limit=-1] the data are the first four records, more
    than the limit.  With [?page=2&limit=2.5] the indices 2.5 and 5 are
    truncated and the data are the three records from index 2 on, more than
    the limit 2.5 (which is echoed as 2).  With [?page=1e1&limit=2] the
    answer echoes page 1 and limit 2, yet its data are those of page 10,
    none, and not the records at the indices 0 and 1. *)
Lemma page_claim_counterexamples :
  @get_passengers DecimalRuntime.runtime sample negative_limit
  = {| listing_status := 200;
       listing_json :=
         Listing_json 5 (Some 1%Z) (Some (-1)%Z) (take 4 sample) |} ∧
  ¬ (Z.of_nat (length (take 4 sample)) ≤ -1)%Z ∧
  @get_passengers DecimalRuntime.runtime sample fractional_limit
  = {| listing_status := 200;
       listing_json :=
         Listing_json 5 (Some 2%Z) (Some 2%Z) (drop 2 sample) |} ∧
  (@StringToNumber DecimalRuntime.runtime "2.5"
   <? number_of_nat (length (drop 2 sample)))%float = true ∧
  @get_passengers DecimalRuntime.runtime sample exponent_page
  = {| listing_status := 200;
       listing_json := Listing_json 5 (Some 1%Z) (Some 2%Z) [] |} ∧
  slice sample ((1 - 1) * 2) (1 * 2) = take 2 sample.
Proof.
  split; [by vm_compute|]. split; [vm_compute; by intros Hle; apply Hle|].
  split; [by vm_compute|]. split; [by vm_compute|].
  split; by vm_compute.
Qed.

(** *** The theorems at concrete requests *)

Example parseInt_examples :
  AsciiRuntime.parseInt <$> ["3"; "  -42abc"; "0x1F"; "12.5"; "abc"; ""]
  = [Some 3; Some (-42); Some 31; Some 12; None; None]%Z.
Proof. by vm_compute. Qed.

Example slice_examples :
  slice [1; 2; 3; 4; 5] 1 3 = [2; 3] ∧
  slice [1; 2; 3; 4; 5] 0 (-1) = [1; 2; 3; 4] ∧
  slice [1; 2; 3; 4; 5] (-2) 10 = [4; 5] ∧
  slice [1; 2; 3; 4; 5] 3 2 = [].
Proof. by vm_compute. Qed.

Example search_is_case_insensitive :
  PassengerId <$> data_of (@search_passengers AsciiRuntime.runtime sample "MRS")
  = [2; 4]%Z.
Proof. by vm_compute. Qed.

Example unknown_id_is_404 :
  status (@passenger_by_id AsciiRuntime.runtime sample "42") = 404%Z ∧
  status (@passenger_by_id AsciiRuntime.runtime sample "x3") = 404%Z.
Proof. by vm_compute. Qed.

Example StringToNumber_examples :
  DecimalRuntime.StringToNumber
    <$> ["-1"; "2.5"; "1e1"; " 12 "; ".5"; "0.1"; "1e"; "abc"; ""]
  = [-1; 2.5; 10; 12; 0.5; 0.1; nan; nan; 0]%float.
Proof. by vm_compute. Qed.

(** Without parameters the answer is the first page of 20. *)
Example first_page_by_default :
  @get_passengers AsciiRuntime.runtime sample ∅
  = {| listing_status := 200;
       listing_json := Listing_json 5 (Some 1%Z) (Some 20%Z) sample |}.
Proof. by vm_compute. Qed.

Lemma get_passengers_page_sample :
  @reads_as_integer AsciiRuntime.runtime
    (query_parameter second_page_of_two "page" 1) 2 ∧
  @reads_as_integer AsciiRuntime.runtime
    (query_parameter second_page_of_two "limit" 20) 2 ∧
  (∃ data,
     @get_passengers AsciiRuntime.runtime sample second_page_of_two
     = {| listing_status := 200;
          listing_json :=
            Listing_json (length sample) (Some 2%Z) (Some 2%Z) data |} ∧
     (∀ k : nat,
        data !! k =
          if decide (Z.of_nat k < 2)%Z
          then item sample ((2 - 1) * 2 + Z.of_nat k)
          else None) ∧
     (Z.of_nat (length data) ≤ 2)%Z ∧
     ((Z.of_nat (length sample) ≤ (2 - 1) * 2)%Z → data = [])) ∧
  @get_passengers AsciiRuntime.runtime sample second_page_of_two
  = {| listing_status := 200;
       listing_json :=
         Listing_json 5 (Some 2%Z) (Some 2%Z) (take 2 (drop 2 sample)) |}.
Proof.
  assert (∀ name default,
            name = "page" ∨ name = "limit" →
            @reads_as_integer AsciiRuntime.runtime
              (query_parameter second_page_of_two name default) 2)
    as Hreads.
  { intros name default [-> | ->].
    - split; [exists 2%float|exists "2"]; split; by vm_compute.
    - split; [exists 2%float|exists "2"]; split; by vm_compute. }
  split; [apply Hreads; by left|]. split; [apply Hreads; by right|].
  split; [|by vm_compute].
  apply (@get_passengers_page AsciiRuntime.runtime sample
           second_page_of_two 2 2).
  - apply Hreads; by left.
  - apply Hreads; by right.
  - by vm_compute.
  - by vm_compute.
  - by vm_compute.
Defined.

Lemma passenger_by_id_first_sample :
  ∃ q, @passenger_by_id AsciiRuntime.runtime sample "3"
         = {| status := 200; json := Passenger_json q |} ∧
       PassengerId q = 3%Z.
Proof.
  assert (∃ p, p ∈ sample ∧ PassengerId p = 3%Z ∧ sample !! 2%nat = Some p)
    as (p & Hin & Hid & _).
  { eexists. split; [|split; [|reflexivity]].
    - do 2 apply list_elem_of_further. apply list_elem_of_here.
    - reflexivity. }
  destruct (proj2 (proj2 (@passenger_by_id_first AsciiRuntime.runtime
                            sample "3")) p Hin)
    as (q & Hq & Hqid).
  - rewrite Hid. by vm_compute.
  - exists q. split; [exact Hq|]. by rewrite Hqid.
Defined.

Lemma stats_counts_sum_to_total_sample :
  Forall (λ p, Pclass p = 1 ∨ Pclass p = 2 ∨ Pclass p = 3)%Z sample ∧
  Forall (λ p, Sex p = "male" ∨ Sex p = "female") sample ∧
  ∃ c1 c2 c3 male female,
    json (stats_summary sample)
      = Stats_json (length sample) (c1, c2, c3) (male, female) ∧
    c1 + c2 + c3 = length sample ∧
    male + female = length sample.
Proof.
  assert (Forall (λ p, Pclass p = 1 ∨ Pclass p = 2 ∨ Pclass p = 3)%Z sample)
    as Hclass by (repeat constructor; simpl; auto).
  assert (Forall (λ p, Sex p = "male" ∨ Sex p = "female") sample)
    as Hsex by (repeat constructor; simpl; auto).
  split; [exact Hclass|]. split; [exact Hsex|].
  exact (stats_counts_sum_to_total sample Hclass Hsex).
Defined.

End PassengersProofs.

(** * Further properties *)

(** ** More on the order of doubles *)

Section FloatOrder.

Lemma SFcompare_Eq_right a x y :
  SFcompare x y = Some Eq → SFcompare a x = SFcompare a y.
Proof.
  destruct x as [sx|sx| |sx mx ex], y as [sy|sy| |sy my ey]; simpl;
    try destruct sx; try destruct sy; try done.
  all: try (destruct a as [sa|sa| |sa ma ea]; done).
  all: intros Hc; f_equal.
  all: destruct (Z.compare_spec ex ey) as [->| |]; try done.
  all: injection Hc as Hc; try (apply CompOpp_iff in Hc; simpl in Hc).
  all: apply (Pos.compare_eq mx my) in Hc; by subst.
Qed.

(** [a < x] and [x <= y] give [a < y]. *)
Lemma ltb_leb_trans (a x y : float) :
  (a <? x)%float = true → (x <=? y)%float = true → (a <? y)%float = true.
Proof.
  rewrite !FloatAxioms.ltb_spec, FloatAxioms.leb_spec. unfold SFltb, SFleb.
  destruct (SFcompare (Prim2SF a) (Prim2SF x)) as [[]|] eqn:Cax; try done.
  destruct (SFcompare (Prim2SF x) (Prim2SF y)) as [[]|] eqn:Cxy; try done.
  - by rewrite <- (SFcompare_Eq_right _ _ _ Cxy), Cax.
  - by rewrite (SFcompare_Lt_trans _ _ _ Cax Cxy).
Qed.

(** [a < b] and [b < x] give [a < x]. *)
Lemma ltb_trans (a b x : float) :
  (a <? b)%float = true → (b <? x)%float = true → (a <? x)%float = true.
Proof.
  rewrite !FloatAxioms.ltb_spec. unfold SFltb.
  destruct (SFcompare (Prim2SF a) (Prim2SF b)) as [[]|] eqn:Cab; try done.
  destruct (SFcompare (Prim2SF b) (Prim2SF x)) as [[]|] eqn:Cbx; try done.
  by rewrite (SFcompare_Lt_trans _ _ _ Cab Cbx).
Qed.

End FloatOrder.

(** ** The scoring service *)

Module PredictionExtras.
Import Prediction PredictionProofs.

Lemma get_insert (body : gmap string value) k k' v :
  get (<[k := v]> body) k' = if decide (k = k') then v else get body k'.
Proof. unfold get. rewrite lookup_insert. by case_decide. Qed.

Lemma get_insert_eq (body : gmap string value) k v :
  get (<[k := v]> body) k = v.
Proof. rewrite get_insert. by rewrite decide_True. Qed.

Lemma get_insert_ne (body : gmap string value) k k' v :
  k ≠ k' → get (<[k := v]> body) k' = get body k'.
Proof. intros Hne. rewrite get_insert. by rewrite decide_False. Qed.

Section Logistic.

Lemma logistic_increasing (s1 s2 : Z) :
  (logistic s1 < logistic s2)%R ↔ (s1 < s2)%Z.
Proof.
  unfold logistic.
  pose proof (exp_pos (- IZR s1 * 0.3)) as H1.
  pose proof (exp_pos (- IZR s2 * 0.3)) as H2.
  assert ((1 / (1 + exp (- IZR s1 * 0.3)) < 1 / (1 + exp (- IZR s2 * 0.3)))%R
          ↔ (exp (- IZR s2 * 0.3) < exp (- IZR s1 * 0.3))%R) as ->.
  { unfold Rdiv. rewrite !Rmult_1_l. split; intros Hlt.
    - apply Rnot_le_lt. intros Hge. apply (Rlt_not_le _ _ Hlt).
      apply Rinv_le_contravar; lra.
    - apply Rinv_lt_contravar; [nra|lra]. }
  split; intros Hlt.
  - apply exp_lt_inv in Hlt. apply lt_IZR. lra.
  - apply exp_increasing. apply IZR_lt in Hlt. lra.
Qed.

Lemma logistic_monotone (s1 s2 : Z) :
  (s1 ≤ s2)%Z → (logistic s1 <= logistic s2)%R.
Proof.
  intros Hle. destruct (decide (s1 = s2)) as [->|Hne]; [lra|].
  left. apply logistic_increasing. lia.
Qed.

Lemma exp_minus_1_2_lower : (0.3011 <= exp (-1.2))%R.
Proof.
  pose proof (exp_lower 999853515625000 13 (-1.2 / 8192)) as Hb.
  replace (2 ^ 13 * (-1.2 / 8192))%R with (-1.2)%R in Hb by lra.
  eapply Rle_trans; [|apply Hb; [lia|]].
  - vm_compute Nat.iter. lra.
  - change (10 ^ 15)%Z with 1000000000000000%Z. lra.
Qed.

Lemma exp_minus_3_3_lower : (0.0368 <= exp (-3.3))%R.
Proof.
  pose proof (exp_lower 999597167968750 13 (-3.3 / 8192)) as Hb.
  replace (2 ^ 13 * (-3.3 / 8192))%R with (-3.3)%R in Hb by lra.
  eapply Rle_trans; [|apply Hb; [lia|]].
  - vm_compute Nat.iter. lra.
  - change (10 ^ 15)%Z with 1000000000000000%Z. lra.
Qed.

Lemma logistic_lowest : (0.23 < logistic (-4))%R.
Proof.
  unfold logistic. replace (- IZR (-4) * 0.3)%R with 1.2%R by lra.
  pose proof exp_minus_1_2_lower as Hlo.
  assert (exp (-1.2) * exp 1.2 = 1)%R as Hinv.
  { rewrite <- exp_plus. replace (-1.2 + 1.2)%R with 0%R by lra. apply exp_0. }
  pose proof (exp_pos 1.2) as Hpos.
  set (E := exp (-1.2)) in *. set (G := exp 1.2) in *.
  assert (G <= 3.33)%R as Hup by nra.
  assert (1 / (1 + G) * (1 + G) = 1)%R as Hp by (field; lra).
  assert (0 < 1 / (1 + G))%R as Hq by (apply Rdiv_lt_0_compat; lra).
  set (p := (1 / (1 + G))%R) in *.
  assert (0 <= p * (3.33 - G))%R as H1 by (apply Rmult_le_pos; lra).
  clearbody p E G. lra.
Qed.

Lemma logistic_highest : (logistic 11 < 0.97)%R.
Proof.
  unfold logistic. replace (- IZR 11 * 0.3)%R with (-3.3)%R by lra.
  pose proof exp_minus_3_3_lower as Hlo.
  set (E := exp (-3.3)) in *.
  assert (1 / (1 + E) * (1 + E) = 1)%R as Hp by (field; lra).
  assert (0 < 1 / (1 + E))%R as Hq by (apply Rdiv_lt_0_compat; lra).
  set (p := (1 / (1 + E))%R) in *.
  assert (0 <= p * (E - 0.0368))%R as H1 by (apply Rmult_le_pos; lra).
  clearbody p E. lra.
Qed.

End Logistic.

Section Scoring.
Context `{Runtime}.

(** *** When the handler answers what *)

Lemma ToNumber_Ok_converts v n : ToNumber v = Ok n → converts v.
Proof.
  unfold converts. destruct v; simpl; eauto.
  all: intros Hn; apply bind_Ok_inv in Hn as (s & -> & _); simpl; eauto.
Qed.

Lemma le_num_Ok_converts v k c : le_num v k = Ok c → converts v.
Proof.
  unfold le_num. intros Hc. apply bind_Ok_inv in Hc as (n & Hn & _).
  by eapply ToNumber_Ok_converts.
Qed.

Lemma gt_num_Ok_converts v k c : gt_num v k = Ok c → converts v.
Proof.
  unfold gt_num. intros Hc. apply bind_Ok_inv in Hc as (n & Hn & _).
  by eapply ToNumber_Ok_converts.
Qed.

Lemma add_Ok_converts a b v : add a b = Ok v → converts a ∧ converts b.
Proof.
  unfold add, converts. intros Hv.
  apply bind_Ok_inv in Hv as (pa & Ha & Hv).
  apply bind_Ok_inv in Hv as (pb & Hb & _). eauto.
Qed.

(** A run that returns has converted age, sibsp, parch and fare. *)
Lemma predictSurvival_Ok_converts body r :
  predictSurvival body = Ok r →
  Forall (λ field, converts (get body field)) convertedFields.
Proof.
  intros Hr. cbv delta [predictSurvival] in Hr. cbv beta in Hr.
  step_let_in Hr s0. step_let_in Hr s1. step_let_in Hr s2.
  step_let_in Hr s3. step_let_in Hr s4. step_let_in Hr s5. clearbody s5.
  apply bind_Ok_inv in Hr as (s6 & Hage & Hr).
  apply bind_Ok_inv in Hage as (c12 & Hage & _).
  apply le_num_Ok_converts in Hage.
  apply bind_Ok_inv in Hr as (familySize & Hadd & Hr).
  apply add_Ok_converts in Hadd as [Hsibsp Hparch].
  step_let_in Hr s7. clearbody s7.
  apply bind_Ok_inv in Hr as (c & _ & Hr).
  step_let_in Hr s8. clearbody s8.
  apply bind_Ok_inv in Hr as (s9 & Hfare & _).
  apply bind_Ok_inv in Hfare as (c50 & Hfare & _).
  apply gt_num_Ok_converts in Hfare.
  unfold convertedFields. by repeat constructor.
Qed.

Lemma missing_field_Some_iff body :
  is_Some (missing_field requiredFields body)
  ↔ Exists (missing body) requiredFields.
Proof.
  unfold missing. induction requiredFields as [|f rest IH]; simpl.
  - split; [by intros [? ?]|by intros ?%Exists_nil].
  - rewrite Exists_cons, <- IH.
    destruct (is_nullish (get body f)) eqn:Hf.
    + split; [by left|by eauto].
    + split; [by right|]. by intros [?|?].
Qed.

(** X1: the handler answers 400, 500 or 200: 400 exactly when one of the
    seven fields is missing (also when another one would not convert),
    500 exactly when all are present and one of age, sibsp, parch, fare
    does not convert to a primitive, 200 exactly when all are present and
    those four convert. *)
Theorem predict_handler_status body :
  (status (predict_handler body) = 400%Z
   ↔ Exists (missing body) requiredFields) ∧
  (status (predict_handler body) = 500%Z
   ↔ Forall (present body) requiredFields ∧
     ¬ Forall (λ field, converts (get body field)) convertedFields) ∧
  (status (predict_handler body) = 200%Z
   ↔ Forall (present body) requiredFields ∧
     Forall (λ field, converts (get body field)) convertedFields).
Proof.
  pose proof (missing_field_Some_iff body) as Hsome.
  pose proof (missing_field_none requiredFields body) as Hnone.
  unfold predict_handler.
  destruct (missing_field requiredFields body) as [field|] eqn:Hmiss.
  - assert (¬ Forall (present body) requiredFields) as Hnot.
    { intros Hall. apply Hnone in Hall. done. }
    simpl. repeat split; try done; try tauto.
    intros _. apply Hsome. by eexists.
  - assert (Forall (present body) requiredFields) as Hall by by apply Hnone.
    assert (¬ Exists (missing body) requiredFields) as Hnot.
    { intros Hex. apply Hsome in Hex as [? ?]. done. }
    destruct (predictSurvival body) as [r|e] eqn:Hrun; simpl.
    + apply predictSurvival_Ok_converts in Hrun.
      repeat split; try done; tauto.
    + assert (¬ Forall (λ field, converts (get body field)) convertedFields)
        as Hconv.
      { intros Hconv. apply predictSurvival_returns in Hconv as [r Hr].
        congruence. }
      repeat split; try done; tauto.
Qed.

(** *** Fields sent as strings *)

(** X2: an age or a fare sent as a string is scored as the number the
    string converts to: the answer is the one for that number. *)
Theorem numeric_strings_score_as_numbers body (s : string) :
  predict_handler (<["age" := VStr s]> body)
    = predict_handler (<["age" := VNum (StringToNumber s)]> body) ∧
  predict_handler (<["fare" := VStr s]> body)
    = predict_handler (<["fare" := VNum (StringToNumber s)]> body).
Proof.
  split.
  - assert (predictSurvival (<["age" := VStr s]> body)
            = predictSurvival (<["age" := VNum (StringToNumber s)]> body))
      as Hrun.
    { cbv delta [predictSurvival]. cbv beta. rewrite !get_insert. by simpl. }
    unfold predict_handler. rewrite Hrun.
    unfold requiredFields. simpl. rewrite !get_insert. by simpl.
  - assert (predictSurvival (<["fare" := VStr s]> body)
            = predictSurvival (<["fare" := VNum (StringToNumber s)]> body))
      as Hrun.
    { cbv delta [predictSurvival]. cbv beta. rewrite !get_insert. by simpl. }
    unfold predict_handler. rewrite Hrun.
    unfold requiredFields. simpl. rewrite !get_insert. by simpl.
Qed.

End Scoring.

Section Typed.
Context `{Runtime}.

(** X3: a class that is sent as a string, also ["1"], is no class for the
    strict comparisons: the score loses the class adjustment and the
    class label is "Bajo". *)
Theorem string_class_is_no_class body i (s : string) :
  carries body i →
  ∃ r, predictSurvival (<["pclass" := VStr s]> body) = Ok r ∧
       score r = (score_by_rules i - class_adjustment (pclass i))%Z ∧
       class_impact (features_of r) = "Bajo".
Proof.
  intros Hc.
  pose (i0 := {| pclass := 0; sex := sex i; age := age i; sibsp := sibsp i;
                 parch := parch i; fare := fare i; embarked := embarked i |}).
  assert (carries (<["pclass" := VNum 0]> body) i0) as Hc0.
  { unfold carries in *. destruct Hc as (_ & Hs & Ha & Hsi & Hpa & Hf & He).
    rewrite lookup_insert_eq, !lookup_insert_ne by done. by simpl. }
  assert (predictSurvival (<["pclass" := VStr s]> body)
          = predictSurvival (<["pclass" := VNum 0]> body)) as ->.
  { cbv delta [predictSurvival]. cbv beta. rewrite !get_insert. by simpl. }
  rewrite (predictSurvival_typed _ _ Hc0). eexists. split; [done|]. simpl.
  split; [|by vm_compute].
  unfold score_by_rules. simpl.
  change (class_adjustment 0) with 0%Z. lia.
Qed.

(** X4: a sibsp that is sent as a string makes the family size a string,
    the concatenation with parch: the +1 of a family of 1 or 2 is never
    given, and the -1 is given when that string converts to a number
    above 4, as ["1" + 0 = "10"] does. *)
Theorem string_sibsp_is_concatenated body i (s : string) :
  carries body i →
  ∃ r, predictSurvival (<["sibsp" := VStr s]> body) = Ok r ∧
       score r =
         (score_by_rules i - family_adjustment (sibsp i + parch i)
          + (if (4 <? StringToNumber (s +:+ NumberToString (parch i)))%float
             then -1 else 0))%Z.
Proof.
  intros Hc. apply carries_get in Hc as (Hp & Hs & Ha & Hsi & Hpa & Hf & He).
  set (penalty := (if (4 <? StringToNumber (s +:+ NumberToString (parch i)))%float
                   then -1 else 0)%Z).
  set (total := (score_by_rules i - family_adjustment (sibsp i + parch i)
                 + penalty)%Z).
  enough (∃ labels,
    predictSurvival (<["sibsp" := VStr s]> body) =
      Ok {| survived := above_threshold (logistic total);
            probability := logistic total;
            score := total;
            features_of := labels |}) as [labels ->] by by eexists.
  eexists.
  cbv delta [predictSurvival]; cbv beta.
  rewrite get_insert_eq, !get_insert_ne by done.
  rewrite Hp, Hs, Ha, Hpa, Hf, He.
  cbn beta iota delta [strict_eq_str strict_eq_num le_num gt_num ToNumber
                       ToString add ToPrimitive mbind result_bind orb].
  step_let s0. step_let s1. step_let s2. step_let s3. step_let s4. step_let s5.
  assert (s5 = 0 + sex_adjustment (sex i) + class_adjustment (pclass i))%Z
    as E5.
  { rewrite <- class_steps, <- sex_steps. reflexivity. }
  clearbody s5. clear s0 s1 s2 s3 s4.
  rewrite age_steps, bind_Ok. cbv beta. step_let s6. step_let s7.
  rewrite fare_steps, bind_Ok. cbv beta. step_let s8.
  assert (s8 = total) as E8.
  { subst s8 s7 s6 total penalty. rewrite port_steps. unfold score_by_rules.
    destruct (4 <? StringToNumber _)%float; lia. }
  clearbody s8. subst s8.
  rewrite group_steps, bind_Ok. cbv beta zeta. reflexivity.
Qed.

(** X5: paying more never lowers the score: of two scoring inputs that
    differ in the fare only, the one with the higher fare has the
    higher or equal score and probability, and survives when the other
    does. *)
Theorem higher_fare_never_hurts body1 body2 i1 i2 :
  carries body1 i1 → carries body2 i2 →
  pclass i1 = pclass i2 → sex i1 = sex i2 → age i1 = age i2 →
  sibsp i1 = sibsp i2 → parch i1 = parch i2 → embarked i1 = embarked i2 →
  (fare i1 <=? fare i2)%float = true →
  ∃ r1 r2,
    predictSurvival body1 = Ok r1 ∧ predictSurvival body2 = Ok r2 ∧
    (score r1 ≤ score r2)%Z ∧
    (probability r1 <= probability r2)%R ∧
    (survived r1 = true → survived r2 = true).
Proof.
  intros Hc1 Hc2 Ep Es Ea Esi Epa Ee Hfare.
  rewrite (predictSurvival_typed _ _ Hc1), (predictSurvival_typed _ _ Hc2).
  do 2 eexists. split; [done|]. split; [done|]. simpl.
  assert (score_by_rules i1 ≤ score_by_rules i2)%Z as Hle.
  { unfold score_by_rules. rewrite Ep, Es, Ea, Esi, Epa, Ee.
    enough (fare_adjustment (fare i1) ≤ fare_adjustment (fare i2))%Z by lia.
    unfold fare_adjustment.
    destruct (50 <? fare i1)%float eqn:E50.
    { by rewrite (ltb_leb_trans _ _ _ E50 Hfare). }
    destruct (20 <? fare i1)%float eqn:E20.
    { rewrite (ltb_leb_trans _ _ _ E20 Hfare).
      destruct (50 <? fare i2)%float; lia. }
    destruct (50 <? fare i2)%float, (20 <? fare i2)%float; lia. }
  split; [done|]. split; [by apply logistic_monotone|].
  rewrite !above_threshold_true, !logistic_above_half. lia.
Qed.

(** X6: a woman of the first or second class is predicted to survive,
    whatever her age, family, fare and port. *)
Theorem first_and_second_class_women_survive body i :
  carries body i →
  sex i = "female" →
  (pclass i =? 1)%float = true ∨ (pclass i =? 2)%float = true →
  ∃ r, predictSurvival body = Ok r ∧ survived r = true ∧ (2 ≤ score r)%Z.
Proof.
  intros Hc Hsex Hclass.
  rewrite (predictSurvival_typed _ _ Hc). eexists. split; [done|]. simpl.
  assert (2 ≤ score_by_rules i)%Z as Hscore.
  { unfold score_by_rules.
    pose proof (age_adjustment_range (age i)).
    pose proof (family_adjustment_range (sibsp i + parch i)).
    pose proof (fare_adjustment_range (fare i)).
    pose proof (port_adjustment_range (embarked i)).
    assert (sex_adjustment (sex i) = 3%Z) as -> by by rewrite Hsex.
    assert (1 ≤ class_adjustment (pclass i))%Z.
    { unfold class_adjustment. destruct Hclass as [->| Hc2]; [lia|].
      rewrite Hc2. destruct (pclass i =? 1)%float; lia. }
    lia. }
  split; [|done]. rewrite above_threshold_true, logistic_above_half. lia.
Qed.

(** X7: every returned probability lies strictly between 0.23 and 0.97,
    and of two predictions the one with the higher score has the higher
    probability. *)
Theorem probability_range body1 body2 r1 r2 :
  predictSurvival body1 = Ok r1 → predictSurvival body2 = Ok r2 →
  (0.23 < probability r1 < 0.97)%R ∧
  ((probability r1 < probability r2)%R ↔ (score r1 < score r2)%Z).
Proof.
  intros Hr1 Hr2.
  pose proof (predictSurvival_score_range _ _ Hr1) as Hrange.
  apply predictSurvival_shape in Hr1 as [-> _].
  apply predictSurvival_shape in Hr2 as [-> _].
  split; [|apply logistic_increasing].
  pose proof (logistic_monotone (-4) (score r1)).
  pose proof (logistic_monotone (score r1) 11).
  pose proof logistic_lowest. pose proof logistic_highest.
  split; [apply Rlt_le_trans with (logistic (-4))
         |apply Rle_lt_trans with (logistic 11)]; auto with zarith.
Qed.

(** X8: the explanation labels follow the brackets of the score: the age
    group names the age adjustment, and a family that changes the score
    in either direction is labelled "Positivo". *)
Theorem labels_follow_the_rules body i :
  carries body i →
  ∃ r, predictSurvival body = Ok r ∧
    (age_group (features_of r) = "Niño" ↔ age_adjustment (age i) = 2%Z) ∧
    (age_group (features_of r) = "Joven" ↔ age_adjustment (age i) = 1%Z) ∧
    (age_group (features_of r) = "Mayor"
     ↔ age_adjustment (age i) = (-1)%Z) ∧
    (age_group (features_of r) = "Adulto" ↔ age_adjustment (age i) = 0%Z) ∧
    (family_adjustment (sibsp i + parch i) ≠ 0%Z →
     family_impact (features_of r) = "Positivo").
Proof.
  intros Hc.
  rewrite (predictSurvival_typed _ _ Hc). eexists. split; [done|]. simpl.
  unfold age_adjustment, family_adjustment.
  repeat split.
  1-8: destruct (age i <=? 12)%float, (age i <=? 25)%float,
         (60 <? age i)%float; done.
  intros Hfam.
  destruct (sibsp i + parch i =? 1)%float eqn:E1.
  { float_const E1. by rewrite E1. }
  destruct (sibsp i + parch i =? 2)%float eqn:E2.
  { float_const E2. by rewrite E2. }
  simpl in Hfam. destruct (4 <? sibsp i + parch i)%float eqn:E4; [|done].
  assert ((0 <? sibsp i + parch i)%float = true) as ->; [|done].
  by apply (ltb_trans 0 4).
Qed.

End Typed.

(** *** The properties at concrete requests *)

Lemma string_class_is_no_class_fixture :
  carries (to_body fixture) fixture ∧
  ∃ r, @predictSurvival AsciiRuntime.runtime
         (<["pclass" := VStr "1"]> (to_body fixture)) = Ok r ∧
       score r = (score_by_rules fixture - class_adjustment 1)%Z ∧
       class_impact (features_of r) = "Bajo".
Proof.
  assert (carries (to_body fixture) fixture) as Hc
    by (unfold carries; vm_compute; done).
  split; [exact Hc|].
  exact (string_class_is_no_class (to_body fixture) fixture "1" Hc).
Defined.

Lemma string_sibsp_is_concatenated_highest :
  carries (to_body highest_example) highest_example ∧
  ∃ r, @predictSurvival AsciiRuntime.runtime
         (<["sibsp" := VStr "1"]> (to_body highest_example)) = Ok r ∧
       score r =
         (score_by_rules highest_example - family_adjustment (1 + 1)
          + (if (4 <? AsciiRuntime.StringToNumber
                        ("1" +:+ AsciiRuntime.NumberToString 1))%float
             then -1 else 0))%Z.
Proof.
  assert (carries (to_body highest_example) highest_example) as Hc
    by (unfold carries; vm_compute; done).
  split; [exact Hc|].
  exact (string_sibsp_is_concatenated
           (to_body highest_example) highest_example "1" Hc).
Defined.

Lemma higher_fare_never_hurts_tickets :
  carries (to_body cheap_ticket) cheap_ticket ∧
  carries (to_body dear_ticket) dear_ticket ∧
  (fare cheap_ticket <=? fare dear_ticket)%float = true ∧
  ∃ r1 r2,
    @predictSurvival AsciiRuntime.runtime (to_body cheap_ticket) = Ok r1 ∧
    @predictSurvival AsciiRuntime.runtime (to_body dear_ticket) = Ok r2 ∧
    (score r1 ≤ score r2)%Z ∧
    (probability r1 <= probability r2)%R ∧
    (survived r1 = true → survived r2 = true).
Proof.
  assert (carries (to_body cheap_ticket) cheap_ticket) as Hc1
    by (unfold carries; vm_compute; done).
  assert (carries (to_body dear_ticket) dear_ticket) as Hc2
    by (unfold carries; vm_compute; done).
  assert ((fare cheap_ticket <=? fare dear_ticket)%float = true) as Hfare
    by reflexivity.
  split; [exact Hc1|]. split; [exact Hc2|]. split; [exact Hfare|].
  exact (higher_fare_never_hurts
           (to_body cheap_ticket) (to_body dear_ticket) cheap_ticket
           dear_ticket Hc1 Hc2 eq_refl eq_refl eq_refl eq_refl eq_refl
           eq_refl Hfare).
Defined.

Lemma first_and_second_class_women_survive_fixture :
  carries (to_body fixture) fixture ∧
  sex fixture = "female" ∧
  ((pclass fixture =? 1)%float = true ∨ (pclass fixture =? 2)%float = true) ∧
  ∃ r, @predictSurvival AsciiRuntime.runtime (to_body fixture) = Ok r ∧
       survived r = true ∧ (2 ≤ score r)%Z.
Proof.
  assert (carries (to_body fixture) fixture) as Hc
    by (unfold carries; vm_compute; done).
  assert ((pclass fixture =? 1)%float = true
          ∨ (pclass fixture =? 2)%float = true) as Hclass
    by (left; reflexivity).
  split; [exact Hc|]. split; [reflexivity|]. split; [exact Hclass|].
  exact (first_and_second_class_women_survive
           (to_body fixture) fixture Hc eq_refl Hclass).
Defined.

Lemma probability_range_fixture :
  @predictSurvival AsciiRuntime.runtime (to_body fixture) = Ok fixture_result ∧
  (0.23 < probability fixture_result < 0.97)%R ∧
  ((probability fixture_result < probability fixture_result)%R
   ↔ (score fixture_result < score fixture_result)%Z).
Proof.
  assert (@predictSurvival AsciiRuntime.runtime (to_body fixture)
          = Ok fixture_result) as Hr by (vm_compute; reflexivity).
  split; [exact Hr|].
  exact (probability_range (to_body fixture) (to_body fixture)
           fixture_result fixture_result Hr Hr).
Defined.

Lemma labels_follow_the_rules_lowest :
  carries (to_body lowest_example) lowest_example ∧
  ∃ r, @predictSurvival AsciiRuntime.runtime (to_body lowest_example) = Ok r ∧
    (age_group (features_of r) = "Niño" ↔ age_adjustment 70 = 2%Z) ∧
    (age_group (features_of r) = "Joven" ↔ age_adjustment 70 = 1%Z) ∧
    (age_group (features_of r) = "Mayor" ↔ age_adjustment 70 = (-1)%Z) ∧
    (age_group (features_of r) = "Adulto" ↔ age_adjustment 70 = 0%Z) ∧
    (family_adjustment (4 + 2) ≠ 0%Z →
     family_impact (features_of r) = "Positivo").
Proof.
  assert (carries (to_body lowest_example) lowest_example) as Hc
    by (unfold carries; vm_compute; done).
  split; [exact Hc|].
  exact (labels_follow_the_rules (to_body lowest_example) lowest_example Hc).
Defined.

(** A form that sends every field as a string: one sibling and no
    parent make the family size ["10"], and the class is none. *)
Example all_strings_form :
  @predictSurvival AsciiRuntime.runtime
    (<["pclass" := VStr "1"]> (<["age" := VStr "29"]>
     (<["sibsp" := VStr "1"]> (<["parch" := VStr "0"]>
      (<["fare" := VStr "80"]> (to_body fixture))))))
  ≫= (λ r, Ok (score r, class_impact (features_of r))) = Ok (4%Z, "Bajo").
Proof. by vm_compute. Qed.

End PredictionExtras.

(** ** The passenger routes *)

Module PassengersExtras.
Import Passengers PassengersProofs.

Lemma filter_none {A} (P : A → Prop) `{∀ x, Decision (P x)} (l : list A) :
  (∀ x, ¬ P x) → filter P l = [].
Proof.
  intros Hnone. induction l as [|x l IH]; [done|].
  by rewrite filter_cons_False.
Qed.

Section Routes.
Context `{Runtime}.
Variable passengersData : list passenger.

(** X9: whatever the query, the list route answers either 500 with its
    error message, when page or limit does not convert to a number, or 200
    with the length of the list as total, [parseInt] of page and of limit
    as the echoed page and limit, and as data a run of consecutive records
    of the list, in list order.  When the two indices (page-1)*limit and
    page*limit, computed on doubles and truncated, are s and e with
    0 <= s <= e, the data are the records at the indices from s up to, not
    including, e.  Parameters that are strings, or absent, always get a
    200. *)
Theorem get_passengers_returns_a_run (query : gmap string value) :
  let page := query_parameter query "page" 1 in
  let limit := query_parameter query "limit" 20 in
  (∀ p l, ToNumber page = Ok p → ToNumber limit = Ok l →
     ∃ page_string limit_string data,
       ToString page = Ok page_string ∧ ToString limit = Ok limit_string ∧
       get_passengers passengersData query
       = {| listing_status := 200;
            listing_json :=
              Listing_json (length passengersData)
                (parseInt page_string) (parseInt limit_string) data |} ∧
       (∃ k n, data = take n (drop k passengersData)) ∧
       data `sublist_of` passengersData ∧
       (∀ s e,
          ToIntegerOrInfinity ((p - 1) * l) = Integer s →
          ToIntegerOrInfinity (p * l) = Integer e →
          (0 ≤ s ≤ e)%Z →
          ∀ k : nat,
            data !! k =
              if decide (s + Z.of_nat k < e)%Z
              then item passengersData (s + Z.of_nat k)
              else None)) ∧
  (ToNumber page = Throw TypeError ∨ ToNumber limit = Throw TypeError →
   get_passengers passengersData query
   = {| listing_status := 500;
        listing_json := Listing_error "Error al obtener pasajeros" |}) ∧
  ((∃ s, query !! "page" = Some (VStr s)) ∨ query !! "page" = None →
   (∃ s, query !! "limit" = Some (VStr s)) ∨ query !! "limit" = None →
   listing_status (get_passengers passengersData query) = 200%Z).
Proof.
  intros page limit. split; [|split].
  - intros p l Hp Hl.
    destruct (ToNumber_Ok_ToString _ _ Hp) as [page_string Hps].
    destruct (ToNumber_Ok_ToString _ _ Hl) as [limit_string Hls].
    exists page_string, limit_string,
      (slice_numbers passengersData ((p - 1) * l) (p * l)).
    split; [done|]. split; [done|]. split; [|split; [|split]].
    + unfold get_passengers. fold page limit.
      by rewrite Hp, Hl, Hps, Hls.
    + apply slice_numbers_run.
    + unfold slice_numbers. etrans; [apply sublist_take|apply sublist_drop].
    + intros s e Hs He Hse k. unfold slice_numbers. rewrite Hs, He.
      rewrite !relative_index_Integer. apply (lookup_slice_forward _ _ _ _ Hse).
  - unfold get_passengers. fold page limit.
    intros [Hp|Hl]; [by rewrite Hp|].
    rewrite Hl. by destruct (ToNumber page).
  - assert (∀ name default,
              (∃ s, query !! name = Some (VStr s)) ∨ query !! name = None →
              ∃ x s, ToNumber (query_parameter query name default) = Ok x ∧
                     ToString (query_parameter query name default) = Ok s)
      as Hconverts.
    { intros name default [[s Hs]| Hnone];
        unfold query_parameter, get; [rewrite Hs|rewrite Hnone];
        simpl; by eauto. }
    intros Hpage Hlimit.
    destruct (Hconverts "page" 1%float Hpage) as (p & ps & Hp & Hps).
    destruct (Hconverts "limit" 20%float Hlimit) as (l & ls & Hl & Hls).
    unfold get_passengers. by rewrite Hp, Hl, Hps, Hls.
Qed.

(** X10: the pages 1 to n of a positive limit, one after the other, are
    the first n * limit records: each record comes on exactly one page, in
    list order, and all of them once n * limit reaches the length. *)
Theorem pages_cover_the_list (limit : Z) (n : nat) :
  (0 < limit)%Z →
  concat ((λ page : nat,
             data_of (list_passengers passengersData
                        (Some (Z.of_nat page)) (Some limit)))
          <$> seq 1 n)
    = take (n * Z.to_nat limit) passengersData ∧
  (length passengersData ≤ n * Z.to_nat limit →
   concat ((λ page : nat,
              data_of (list_passengers passengersData
                         (Some (Z.of_nat page)) (Some limit)))
           <$> seq 1 n)
     = passengersData).
Proof.
  intros Hl.
  assert (concat ((λ page : nat,
             data_of (list_passengers passengersData
                        (Some (Z.of_nat page)) (Some limit)))
          <$> seq 1 n)
    = take (n * Z.to_nat limit) passengersData) as Hpages.
  { induction n as [|n IH]; [done|].
    rewrite seq_S, fmap_app, concat_app, IH. simpl.
    unfold list_passengers, data_of. simpl.
    rewrite slice_forward by nia. rewrite app_nil_r.
    replace (Z.to_nat (Z.of_nat (S n) * limit)
             - Z.to_nat ((Z.of_nat (S n) - 1) * limit))
      with (Z.to_nat limit) by nia.
    replace (Z.to_nat ((Z.of_nat (S n) - 1) * limit))
      with (n * Z.to_nat limit) by nia.
    rewrite take_take_drop. f_equal. lia. }
  split; [done|]. intros Hall. rewrite Hpages. by apply take_ge.
Qed.

(** X11: a negative limit is not refused: with limit -k on the first page
    (the default page) the data are the whole list but its last k
    records; on every later page they are empty. *)
Theorem negative_limit_drops_the_tail (page : option Z) (k : Z) :
  (0 < k)%Z →
  let p := default 1%Z page in
  (p = 1%Z →
   data_of (list_passengers passengersData page (Some (- k)%Z))
     = take (length passengersData - Z.to_nat k) passengersData) ∧
  ((2 ≤ p)%Z →
   data_of (list_passengers passengersData page (Some (- k)%Z)) = []).
Proof.
  intros Hk p. unfold list_passengers, data_of. simpl. fold p. clearbody p.
  split.
  - intros ->. unfold slice. cbv zeta.
    change ((1 - 1) * - k)%Z with 0%Z. change (0 <? 0)%Z with false.
    cbv iota. destruct (Z.ltb_spec (1 * - k) 0); [|lia].
    replace (Z.to_nat (Z.min 0 _)) with 0%nat by lia.
    rewrite drop_0. f_equal. lia.
  - intros Hp. unfold slice. cbv zeta.
    destruct (Z.ltb_spec ((p - 1) * - k) 0), (Z.ltb_spec (p * - k) 0);
      try nia.
    replace (Z.to_nat (Z.max _ 0)) with 0%nat; [done|]. nia.
Qed.

(** X12: when the identifiers of the list are pairwise distinct, a record
    of the list is what its own identifier fetches. *)
Theorem distinct_ids_round_trip (id : string) (p : passenger) :
  NoDup (PassengerId <$> passengersData) →
  p ∈ passengersData → parseInt id = Some (PassengerId p) →
  passenger_by_id passengersData id
    = {| status := 200; json := Passenger_json p |}.
Proof.
  intros Hnodup Hin Hid. unfold passenger_by_id.
  destruct (list_find _ passengersData) as [[i q]|] eqn:Hfind.
  - apply list_find_Some in Hfind as (Hi & Hq & _).
    apply list_elem_of_lookup in Hin as [j Hj].
    assert (i = j) as ->.
    { eapply (NoDup_lookup _ _ _ (PassengerId q) Hnodup).
      - by rewrite list_lookup_fmap, Hi.
      - rewrite list_lookup_fmap, Hj. simpl. congruence. }
    rewrite Hi in Hj. by injection Hj as ->.
  - apply list_find_None in Hfind. rewrite Forall_forall in Hfind.
    destruct (Hfind p Hin). by rewrite Hid.
Qed.

(** X13: a parameter that [parseInt] turns into NaN is no error for the
    filters: the class and survival routes answer 200 with count 0 and no
    data (the survival label is then "No sobrevivió"), and the lookup by
    id answers 404. *)
Theorem unparsable_parameter (param : string) :
  parseInt param = None →
  passengers_by_class passengersData param
    = {| status := 200; json := Class_json None 0 [] |} ∧
  passengers_by_survival passengersData param
    = {| status := 200; json := Survived_json "No sobrevivió" 0 [] |} ∧
  status (passenger_by_id passengersData param) = 404%Z.
Proof.
  intros Hnan.
  unfold passengers_by_class, passengers_by_survival, passenger_by_id.
  rewrite Hnan. cbv zeta. rewrite !filter_none by done.
  repeat split; try done.
  destruct (list_find _ _) as [[i q]|] eqn:Hfind; [|done].
  by apply list_find_Some in Hfind as (_ & ? & _).
Qed.

(** X14: the search returns exactly the records of the list whose
    lower-cased name has the lower-cased term as a contiguous part. *)
Theorem search_finds_substrings (name : string) (p : passenger) :
  p ∈ data_of (search_passengers passengersData name) ↔
  p ∈ passengersData ∧
  ∃ before after,
    toLowerCase (Name p) = before +:+ toLowerCase name +:+ after.
Proof.
  unfold search_passengers, data_of. simpl.
  rewrite list_elem_of_filter, includes_substring. tauto.
Qed.

(** X15: the three filters can be chained in any order: filtering the
    data of one route by another gives the same records as the other way
    round, those that pass both tests. *)
Theorem filters_commute (class status name : string) :
  data_of (passengers_by_class
             (data_of (passengers_by_survival passengersData status)) class)
  = data_of (passengers_by_survival
               (data_of (passengers_by_class passengersData class)) status) ∧
  data_of (passengers_by_class
             (data_of (search_passengers passengersData name)) class)
  = data_of (search_passengers
               (data_of (passengers_by_class passengersData class)) name) ∧
  data_of (passengers_by_survival
             (data_of (search_passengers passengersData name)) status)
  = data_of (search_passengers
               (data_of (passengers_by_survival passengersData status)) name) ∧
  data_of (passengers_by_class
             (data_of (passengers_by_survival passengersData status)) class)
  = filter (λ p, Some (Pclass p) = parseInt class ∧
                 Some (Survived p) = parseInt status) passengersData.
Proof.
  unfold passengers_by_class, passengers_by_survival, search_passengers,
    data_of; simpl.
  rewrite !list_filter_filter.
  repeat split; apply list_filter_iff; tauto.
Qed.

(** X16: the class counts of the statistics never add up to more than
    the total, and to the total exactly when every class is 1, 2 or 3;
    likewise the two sex counts and the sexes male and female. *)
Theorem stats_counts_bounded :
  ∃ c1 c2 c3 male female,
    json (stats_summary passengersData)
      = Stats_json (length passengersData) (c1, c2, c3) (male, female) ∧
    c1 + c2 + c3 ≤ length passengersData ∧
    (c1 + c2 + c3 = length passengersData ↔
     Forall (λ p, Pclass p = 1 ∨ Pclass p = 2 ∨ Pclass p = 3)%Z
            passengersData) ∧
    male + female ≤ length passengersData ∧
    (male + female = length passengersData ↔
     Forall (λ p, Sex p = "male" ∨ Sex p = "female") passengersData).
Proof.
  unfold stats_summary. simpl. do 5 eexists. split; [reflexivity|].
  assert (∀ l : list passenger,
    let c := length (filter (λ p, Pclass p = 1%Z) l)
             + length (filter (λ p, Pclass p = 2%Z) l)
             + length (filter (λ p, Pclass p = 3%Z) l) in
    c ≤ length l ∧
    (c = length l ↔
     Forall (λ p, Pclass p = 1 ∨ Pclass p = 2 ∨ Pclass p = 3)%Z l))
    as Hclass.
  { induction l as [|p l [IH1 IH2]]; simpl.
    - split; [done|]. split; [constructor|done].
    - rewrite !filter_cons, Forall_cons, <- IH2.
      repeat case_decide; simpl; lia. }
  assert (∀ l : list passenger,
    let c := length (filter (λ p, Sex p = "male") l)
             + length (filter (λ p, Sex p = "female") l) in
    c ≤ length l ∧
    (c = length l ↔ Forall (λ p, Sex p = "male" ∨ Sex p = "female") l))
    as Hsex.
  { induction l as [|p l [IH1 IH2]]; simpl.
    - split; [done|]. split; [constructor|done].
    - rewrite !filter_cons, Forall_cons, <- IH2.
      destruct (decide (Sex p = "male")) as [Hm|Hm],
        (decide (Sex p = "female")) as [Hf|Hf]; simpl.
      + congruence.
      + split; [lia|]. split; [intros ?; split; [by left|lia]|].
        intros [_ ?]. lia.
      + split; [lia|]. split; [intros ?; split; [by right|lia]|].
        intros [_ ?]. lia.
      + split; [lia|]. split; [lia|]. by intros [[?|?] _]. }
  destruct (Hclass passengersData) as [Hc1 Hc2].
  destruct (Hsex passengersData) as [Hs1 Hs2].
  cbv zeta in *. done.
Qed.

(** X17: the statistics and the class route count alike: for parameters
    that parse to 1, 2 and 3, the counts of the three class answers are
    the three class counts of the statistics. *)
Theorem stats_agree_with_class_route (first second third : string) :
  parseInt first = Some 1%Z → parseInt second = Some 2%Z →
  parseInt third = Some 3%Z →
  ∃ c1 c2 c3 d1 d2 d3 genders,
    json (passengers_by_class passengersData first)
      = Class_json (Some 1%Z) c1 d1 ∧
    json (passengers_by_class passengersData second)
      = Class_json (Some 2%Z) c2 d2 ∧
    json (passengers_by_class passengersData third)
      = Class_json (Some 3%Z) c3 d3 ∧
    json (stats_summary passengersData)
      = Stats_json (length passengersData) (c1, c2, c3) genders.
Proof.
  intros H1 H2 H3. unfold passengers_by_class, stats_summary.
  rewrite H1, H2, H3. simpl.
  assert (∀ c : Z, filter (λ p, Some (Pclass p) = Some c) passengersData
                   = filter (λ p, Pclass p = c) passengersData) as Hsame.
  { intros c. apply list_filter_iff. intros p. split; congruence. }
  rewrite !Hsame. by do 7 eexists.
Qed.

(** X18: when the data file cannot be read or parsed, or holds no
    passengers, the service runs on the empty list: every page is empty
    with total 0, every lookup by id is a 404, every filter counts 0,
    the statistics count 0 and the survival rate reads "NaN%". *)
Theorem failed_load_serves_the_empty_list (file : data_file)
    (page limit : option Z) (param : string) :
  file = Unreadable ∨ file = Without_passengers →
  (∃ p l, json (list_passengers (loaded file) page limit)
            = Page_json 0 p l []) ∧
  status (passenger_by_id (loaded file) param) = 404%Z ∧
  (∃ class, json (passengers_by_class (loaded file) param)
              = Class_json class 0 []) ∧
  (∃ label, json (passengers_by_survival (loaded file) param)
              = Survived_json label 0 []) ∧
  (∃ term, json (search_passengers (loaded file) param)
             = Search_json term 0 []) ∧
  json (stats_summary (loaded file)) = Stats_json 0 (0, 0, 0) (0, 0) ∧
  survivalRate (loaded file) = "NaN%".
Proof.
  assert (loaded file = [] →
          ∃ p l, json (list_passengers (loaded file) page limit)
                   = Page_json 0 p l []) as Hlist.
  { intros ->. unfold list_passengers, slice. cbn [json length].
    rewrite drop_nil, take_nil. eauto. }
  intros [->| ->].
  all: split; [by apply Hlist|].
  all: repeat split; try (by eauto); by vm_compute.
Qed.

(** X19: on a page p and a limit l that the engine reads as integers of
    either sign, the same integer by the Number conversion and by
    [parseInt], with p-1, (p-1)*l and p*l below 2^53 in absolute value,
    the arithmetic of the handler on doubles is exact: the answer is a 200
    with the total, p and l, and [slice((p-1)*l, p*l)] of the list on
    these integers, which is what [list_passengers] answers. *)
Theorem get_passengers_on_integers (query : gmap string value) (p l : Z) :
  reads_as_integer (query_parameter query "page" 1) p →
  reads_as_integer (query_parameter query "limit" 20) l →
  (Z.abs (p - 1) < 2 ^ 53)%Z →
  (Z.abs ((p - 1) * l) < 2 ^ 53)%Z → (Z.abs (p * l) < 2 ^ 53)%Z →
  get_passengers passengersData query
  = {| listing_status := 200;
       listing_json :=
         Listing_json (length passengersData) (Some p) (Some l)
           (slice passengersData ((p - 1) * l) (p * l)) |} ∧
  list_passengers passengersData (Some p) (Some l)
  = {| status := 200;
       json := Page_json (length passengersData) p l
                 (slice passengersData ((p - 1) * l) (p * l)) |}.
Proof.
  intros [(x & Hx & Hxp) (sp & Hsp & Hpp)] [(y & Hy & Hyl) (sl & Hsl & Hpl)]
    Hp1 Hstart Hend.
  split; [|done].
  unfold get_passengers. rewrite Hx, Hy, Hsp, Hsl. cbn [mbind result_bind].
  rewrite Hpp, Hpl. do 2 f_equal. apply slice_numbers_integers.
  - apply is_integer_mul; [|done..].
    apply is_integer_sub; [done|apply is_integer_1|by vm_compute|done].
  - by apply is_integer_mul.
Qed.

End Routes.

(** *** The properties at concrete requests *)

Lemma get_passengers_returns_a_run_fractional :
  ∃ data,
    @get_passengers DecimalRuntime.runtime sample fractional_limit
    = {| listing_status := 200;
         listing_json := Listing_json 5 (Some 2%Z) (Some 2%Z) data |} ∧
    ∀ k : nat,
      data !! k =
        if decide (2 + Z.of_nat k < 5)%Z
        then item sample (2 + Z.of_nat k)
        else None.
Proof.
  destruct (proj1 (@get_passengers_returns_a_run DecimalRuntime.runtime
                     sample fractional_limit) 2%float 2.5%float)
    as (page_string & limit_string & data & Hps & Hls & Hanswer & _ & _ & Hrun);
    [by vm_compute..|].
  exists data. split.
  - rewrite Hanswer. injection Hps as <-. injection Hls as <-.
    by vm_compute.
  - apply Hrun; by vm_compute.
Defined.

Lemma get_passengers_on_integers_negative_limit :
  @reads_as_integer DecimalRuntime.runtime
    (query_parameter negative_limit "page" 1) 1 ∧
  @reads_as_integer DecimalRuntime.runtime
    (query_parameter negative_limit "limit" 20) (-1) ∧
  @get_passengers DecimalRuntime.runtime sample negative_limit
  = {| listing_status := 200;
       listing_json :=
         Listing_json (length sample) (Some 1%Z) (Some (-1)%Z)
           (slice sample ((1 - 1) * -1) (1 * -1)) |} ∧
  list_passengers sample (Some 1%Z) (Some (-1)%Z)
  = {| status := 200;
       json := Page_json (length sample) 1 (-1)
                 (slice sample ((1 - 1) * -1) (1 * -1)) |}.
Proof.
  assert (@reads_as_integer DecimalRuntime.runtime
            (query_parameter negative_limit "page" 1) 1) as Hpage.
  { split; [exists 1%float|exists "1"]; split; by vm_compute. }
  assert (@reads_as_integer DecimalRuntime.runtime
            (query_parameter negative_limit "limit" 20) (-1)) as Hlimit.
  { split; [exists (-1)%float|exists "-1"]; split; by vm_compute. }
  split; [exact Hpage|]. split; [exact Hlimit|].
  apply (@get_passengers_on_integers DecimalRuntime.runtime sample
           negative_limit 1 (-1) Hpage Hlimit); by vm_compute.
Defined.

Lemma pages_cover_the_list_sample :
  (0 < 2)%Z ∧
  concat ((λ page : nat,
             data_of (list_passengers sample (Some (Z.of_nat page)) (Some 2%Z)))
          <$> seq 1 3)
    = take (3 * Z.to_nat 2) sample ∧
  (length sample ≤ 3 * Z.to_nat 2 →
   concat ((λ page : nat,
              data_of (list_passengers sample (Some (Z.of_nat page)) (Some 2%Z)))
           <$> seq 1 3)
     = sample).
Proof.
  assert (0 < 2)%Z as Hpos by lia.
  split; [exact Hpos|].
  exact (pages_cover_the_list sample 2 3 Hpos).
Defined.

Lemma negative_limit_drops_the_tail_sample :
  (0 < 2)%Z ∧
  (1 = 1 →
   data_of (list_passengers sample None (Some (- 2)%Z))
     = take (length sample - Z.to_nat 2) sample)%Z ∧
  ((2 ≤ 1)%Z →
   data_of (list_passengers sample None (Some (- 2)%Z)) = []).
Proof.
  assert (0 < 2)%Z as Hpos by lia.
  split; [exact Hpos|].
  exact (negative_limit_drops_the_tail sample None 2 Hpos).
Defined.

Lemma distinct_ids_round_trip_sample :
  NoDup (PassengerId <$> sample) ∧
  ∃ p, sample !! 2%nat = Some p ∧
       @passenger_by_id AsciiRuntime.runtime sample "3"
         = {| status := 200; json := Passenger_json p |}.
Proof.
  assert (NoDup (PassengerId <$> sample)) as Hnodup
    by (apply (bool_decide_unpack (NoDup (PassengerId <$> sample)));
        vm_compute; exact I).
  split; [exact Hnodup|].
  eexists. split; [reflexivity|].
  apply (@distinct_ids_round_trip AsciiRuntime.runtime sample "3" _ Hnodup).
  - do 2 apply list_elem_of_further. apply list_elem_of_here.
  - by vm_compute.
Defined.

Lemma unparsable_parameter_sample :
  @parseInt AsciiRuntime.runtime "first" = None ∧
  @passengers_by_class AsciiRuntime.runtime sample "first"
    = {| status := 200; json := Class_json None 0 [] |} ∧
  @passengers_by_survival AsciiRuntime.runtime sample "first"
    = {| status := 200; json := Survived_json "No sobrevivió" 0 [] |} ∧
  status (@passenger_by_id AsciiRuntime.runtime sample "first") = 404%Z.
Proof.
  assert (@parseInt AsciiRuntime.runtime "first" = None) as Hnan
    by (vm_compute; reflexivity).
  split; [exact Hnan|].
  exact (@unparsable_parameter AsciiRuntime.runtime sample "first" Hnan).
Defined.

Lemma stats_agree_with_class_route_sample :
  ∃ c1 c2 c3 d1 d2 d3 genders,
    json (@passengers_by_class AsciiRuntime.runtime sample "1")
      = Class_json (Some 1%Z) c1 d1 ∧
    json (@passengers_by_class AsciiRuntime.runtime sample "2")
      = Class_json (Some 2%Z) c2 d2 ∧
    json (@passengers_by_class AsciiRuntime.runtime sample "3")
      = Class_json (Some 3%Z) c3 d3 ∧
    json (stats_summary sample)
      = Stats_json (length sample) (c1, c2, c3) genders.
Proof.
  apply (@stats_agree_with_class_route AsciiRuntime.runtime sample
           "1" "2" "3"); by vm_compute.
Defined.

Lemma failed_load_serves_the_empty_list_unreadable :
  (∃ p l, json (list_passengers (loaded Unreadable) (Some 3%Z) None)
            = Page_json 0 p l []) ∧
  status (@passenger_by_id AsciiRuntime.runtime (loaded Unreadable) "1")
    = 404%Z ∧
  (∃ class, json (@passengers_by_class AsciiRuntime.runtime
                    (loaded Unreadable) "1") = Class_json class 0 []) ∧
  (∃ label, json (@passengers_by_survival AsciiRuntime.runtime
                    (loaded Unreadable) "1") = Survived_json label 0 []) ∧
  (∃ term, json (@search_passengers AsciiRuntime.runtime
                   (loaded Unreadable) "1") = Search_json term 0 []) ∧
  json (stats_summary (loaded Unreadable)) = Stats_json 0 (0, 0, 0) (0, 0) ∧
  @survivalRate AsciiRuntime.runtime (loaded Unreadable) = "NaN%".
Proof.
  exact (@failed_load_serves_the_empty_list AsciiRuntime.runtime Unreadable
           (Some 3%Z) None "1" (or_introl eq_refl)).
Defined.

Example survivalRate_examples :
  @survivalRate AsciiRuntime.runtime sample = "60.00%" ∧
  @survivalRate AsciiRuntime.runtime (take 3 sample) = "66.67%" ∧
  @survivalRate AsciiRuntime.runtime (take 1 sample) = "0.00%".
Proof. by vm_compute. Qed.

(** [toFixed] rounds the exact value of the double: 1.005 and 10.235 lie
    below the decimal they are written as, 8.345 above. *)
Example toFixed_examples :
  (λ x, @toFixed AsciiRuntime.runtime x 2)
    <$> [1.005; 10.235; 8.345; 123.456; -0.001; 0.005]%float
  = ["1.00"; "10.23"; "8.35"; "123.46"; "-0.00"; "0.01"].
Proof. by vm_compute. Qed.

End PassengersExtras.
